(** * terminal-surfer: the simulation engine and the frame compositor

    A shallow embedding of [src/main.go]: the [game] aggregate, the per-tick
    [update] (the spec's Advance) and [render] with its row helpers.

    - Go's [int] is the 64-bit two's-complement integer: a [Z] with the
      wrap-around of every arithmetic operation written out ([wrap64]).
    - Go's [float64] is an interface ([Float64]) with two implementations:
      [IEEE.binary64], the kernel's IEEE 754 binary64 numbers, whose
      operations are the ones the compiled program executes, and
      [Exact.rational], the same expressions over exact rationals.  Everything
      that does not depend on rounding is proved once, for every
      implementation; the numeric laws are proved over [Exact.rational].
    - A run-time panic (index out of range, division by zero, a negative
      length passed to [make]) is an explicit [Panic] result.
    - [math/rand]'s global generator is a state [rng] threaded through the
      spawn functions. *)

From Stdlib Require Import ZArith QArith Qround Qminmax Lqa Floats Ascii String
  DecimalString.
From stdpp Require Import base tactics option list numbers.

Local Open Scope Z_scope.

(** ** Go's [int] *)

Definition minInt : Z := - 2 ^ 63.
Definition maxInt : Z := 2 ^ 63 - 1.

Definition wrap64 (z : Z) : Z := (z + 2 ^ 63) mod 2 ^ 64 - 2 ^ 63.

Definition int_ok (z : Z) : Prop := minInt ≤ z ≤ maxInt.

Definition iadd (a b : Z) : Z := wrap64 (a + b).
Definition isub (a b : Z) : Z := wrap64 (a - b).
Definition imul (a b : Z) : Z := wrap64 (a * b).
(** [a / b] and [a % b] truncate toward zero; a zero divisor panics and is
    tested where the divisor is not a constant. *)
Definition idiv (a b : Z) : Z := wrap64 (Z.quot a b).
Definition irem (a b : Z) : Z := Z.rem a b.

(** ** Panics *)

Inductive fault : Type :=
  | BufIndex    (* index out of range on a row buffer *)
  | ArrIndex    (* index out of range on a fixed-size array *)
  | DivByZero   (* integer division by zero *)
  | BadLen.     (* make([]byte, n) with n < 0 *)

Inductive result (A : Type) : Type :=
  | Ok (a : A)
  | Panic (f : fault).
Arguments Ok {A} a.
Arguments Panic {A} f.

#[global] Instance result_ret : MRet result := @Ok.
#[global] Instance result_bind : MBind result := λ A B k m,
  match m with Ok a => k a | Panic f => Panic f end.

(** ** Go's [float64] *)

Class Float64 : Type := {
  F : Type;
  fadd : F → F → F;
  fsub : F → F → F;
  fmul : F → F → F;
  fdiv : F → F → F;
  flt : F → F → bool;              (* a < b *)
  fle : F → F → bool;              (* a <= b *)
  of_int : Z → F;                  (* float64(n) *)
  to_int : F → Z;                  (* int(x): truncation toward zero *)
  to_int_range : ∀ x, int_ok (to_int x)
}.

Declare Scope fl_scope.
Delimit Scope fl_scope with fl.
Infix "⊕" := fadd (at level 50, left associativity) : fl_scope.
Infix "⊖" := fsub (at level 50, left associativity) : fl_scope.
Infix "⊗" := fmul (at level 40, left associativity) : fl_scope.
Infix "⊘" := fdiv (at level 40, left associativity) : fl_scope.
Infix "≺" := flt (at level 70, no associativity) : fl_scope.
Infix "≼" := fle (at level 70, no associativity) : fl_scope.
Notation "a ≻ b" := (flt b a) (at level 70, no associativity, only parsing) : fl_scope.
Notation "a ≽ b" := (fle b a) (at level 70, no associativity, only parsing) : fl_scope.

(** A decimal literal [n/d] of the source ([0.05] is [dec 5 100]): the
    correctly rounded quotient of two exactly representable integers. *)
Definition dec `{Float64} (n d : Z) : F := (of_int n ⊘ of_int d)%fl.

Lemma wrap64_range z : int_ok (wrap64 z).
Proof.
  unfold int_ok, wrap64, minInt, maxInt.
  pose proof (Z.mod_pos_bound (z + 2 ^ 63) (2 ^ 64)). lia.
Qed.

Lemma wrap64_id z : int_ok z → wrap64 z = z.
Proof.
  unfold int_ok, wrap64, minInt, maxInt. intros Hz.
  rewrite Z.mod_small; lia.
Qed.

(** *** IEEE 754 binary64 *)

Module IEEE.

(** [int(x)]: the integer part of a finite [x]; what the conversion yields
    outside the range of [int] (and on NaN) is left to the implementation
    by the language: amd64's "integer indefinite" is taken here. *)
Definition trunc (x : float) : Z :=
  match Prim2SF x with
  | S754_zero _ => 0
  | S754_finite s m e =>
      let v := if bool_decide (0 ≤ e) then Z.pos m * 2 ^ e
               else Z.pos m / 2 ^ (- e) in
      let r := if s then - v else v in
      if bool_decide (int_ok r) then r else minInt
  | _ => minInt
  end.

(** [float64(n)], rounded to nearest-even by the hardware conversion. *)
Definition from_int (z : Z) : float :=
  if bool_decide (z = minInt) then (- Z.ldexp 1 63)%float
  else if bool_decide (z < 0) then (- PrimFloat.of_uint63 (Uint63.of_Z (- z)))%float
  else PrimFloat.of_uint63 (Uint63.of_Z z).

Lemma trunc_saturates x : int_ok (trunc x).
Proof.
  unfold trunc. destruct (Prim2SF x) as [?| | |s m e]; try (red; unfold minInt, maxInt; lia).
  cbv zeta. case_bool_decide; [done|]. red; unfold minInt, maxInt; lia.
Qed.

#[export] Instance binary64 : Float64 := {|
  F := float;
  fadd := PrimFloat.add;
  fsub := PrimFloat.sub;
  fmul := PrimFloat.mul;
  fdiv := PrimFloat.div;
  flt := PrimFloat.ltb;
  fle := PrimFloat.leb;
  of_int := from_int;
  to_int := trunc;
  to_int_range := trunc_saturates
|}.

End IEEE.

(** *** Exact rationals *)

Module Exact.


Definition trunc (q : Q) : Z :=
  let t := Z.quot (Qnum q) (Z.pos (Qden q)) in
  if bool_decide (int_ok t) then t else minInt.



End Exact.

(** ** Arrays, loops and the random source *)

(** [a[i]] and [a[i] = v] on a fixed-size array: out of range panics. *)
Definition arr_get {A} (a : list A) (i : Z) : result A :=
  if bool_decide (0 ≤ i < Z.of_nat (length a))
  then match a !! Z.to_nat i with Some v => Ok v | None => Panic ArrIndex end
  else Panic ArrIndex.

Definition arr_set {A} (a : list A) (i : Z) (v : A) : result (list A) :=
  if bool_decide (0 ≤ i < Z.of_nat (length a))
  then Ok (<[Z.to_nat i := v]> a)
  else Panic ArrIndex.

(** [for _, x := range l { s = f(s, x) }] where the body may panic. *)
Fixpoint foldM {A St} (f : St → A → result St) (l : list A) (s : St) : result St :=
  match l with
  | [] => Ok s
  | x :: l' => s' ← f s x; foldM f l' s'
  end.

(** [for x := lo; x < hi; x++ { s = body(x, s) }]. *)
Fixpoint iter_up {St} (n : nat) (x : Z) (body : Z → St → result St) (s : St)
  : result St :=
  match n with
  | O => Ok s
  | S n' => s' ← body x s; iter_up n' (x + 1) body s'
  end.

Definition for_loop {St} (lo hi : Z) (body : Z → St → result St) (s : St)
  : result St :=
  iter_up (Z.to_nat (hi - lo)) lo body s.

(** The state of [math/rand]'s generator: the sequence it is going to produce
    and how far it has been consumed. *)
Record rng : Type := Rng { stream : nat → Z; cursor : nat }.

(** [rand.Intn(n)] for [n > 0]. *)
Definition Intn (n : Z) (r : rng) : Z * rng :=
  (stream r (cursor r) `mod` n, Rng (stream r) (S (cursor r))).

(** ** Constants (main.go, lines 15-23) *)

Definition numLanes : Z := 3.
Definition laneWidth : Z := 7.
Definition trackWidth : Z := numLanes * laneWidth + 4.
Definition farZ : Z := 20.
Definition spawnZ : Z := farZ - 1.
Definition dodgeLookahead : Z := 8.

(** ** Game state (lines 27-66) *)

(** The structs, over the type [T] that stands for float64. *)
Section State.
Variable T : Type.

Record obstacle : Type := Obstacle { o_lane : Z; o_z : T; o_active : bool }.

Record coinObj : Type := CoinObj { c_lane : Z; c_z : T; c_active : bool }.

Record game : Type := Game {
  width : Z;
  height : Z;
  speed : T;
  score : Z;
  coins : Z;
  runnerLane : Z;
  targetLane : Z;
  laneX : T;
  obstacles : list obstacle;   (* [20]obstacle *)
  coinPool : list coinObj;     (* [30]coinObj *)
  scrollOff : T;
  elapsed : T;
  spawnTimer : T;
  coinTimer : T;
  frame : list ascii
}.

Definition set_speed (v : T) (g : game) : game :=
  Game (width g) (height g) v (score g) (coins g) (runnerLane g) (targetLane g)
    (laneX g) (obstacles g) (coinPool g) (scrollOff g) (elapsed g)
    (spawnTimer g) (coinTimer g) (frame g).
Definition set_score (v : Z) (g : game) : game :=
  Game (width g) (height g) (speed g) v (coins g) (runnerLane g) (targetLane g)
    (laneX g) (obstacles g) (coinPool g) (scrollOff g) (elapsed g)
    (spawnTimer g) (coinTimer g) (frame g).
Definition set_coins (v : Z) (g : game) : game :=
  Game (width g) (height g) (speed g) (score g) v (runnerLane g) (targetLane g)
    (laneX g) (obstacles g) (coinPool g) (scrollOff g) (elapsed g)
    (spawnTimer g) (coinTimer g) (frame g).
Definition set_runnerLane (v : Z) (g : game) : game :=
  Game (width g) (height g) (speed g) (score g) (coins g) v (targetLane g)
    (laneX g) (obstacles g) (coinPool g) (scrollOff g) (elapsed g)
    (spawnTimer g) (coinTimer g) (frame g).
Definition set_targetLane (v : Z) (g : game) : game :=
  Game (width g) (height g) (speed g) (score g) (coins g) (runnerLane g) v
    (laneX g) (obstacles g) (coinPool g) (scrollOff g) (elapsed g)
    (spawnTimer g) (coinTimer g) (frame g).
Definition set_laneX (v : T) (g : game) : game :=
  Game (width g) (height g) (speed g) (score g) (coins g) (runnerLane g)
    (targetLane g) v (obstacles g) (coinPool g) (scrollOff g) (elapsed g)
    (spawnTimer g) (coinTimer g) (frame g).
Definition set_obstacles (v : list obstacle) (g : game) : game :=
  Game (width g) (height g) (speed g) (score g) (coins g) (runnerLane g)
    (targetLane g) (laneX g) v (coinPool g) (scrollOff g) (elapsed g)
    (spawnTimer g) (coinTimer g) (frame g).
Definition set_coinPool (v : list coinObj) (g : game) : game :=
  Game (width g) (height g) (speed g) (score g) (coins g) (runnerLane g)
    (targetLane g) (laneX g) (obstacles g) v (scrollOff g) (elapsed g)
    (spawnTimer g) (coinTimer g) (frame g).
Definition set_scrollOff (v : T) (g : game) : game :=
  Game (width g) (height g) (speed g) (score g) (coins g) (runnerLane g)
    (targetLane g) (laneX g) (obstacles g) (coinPool g) v (elapsed g)
    (spawnTimer g) (coinTimer g) (frame g).
Definition set_elapsed (v : T) (g : game) : game :=
  Game (width g) (height g) (speed g) (score g) (coins g) (runnerLane g)
    (targetLane g) (laneX g) (obstacles g) (coinPool g) (scrollOff g) v
    (spawnTimer g) (coinTimer g) (frame g).
Definition set_spawnTimer (v : T) (g : game) : game :=
  Game (width g) (height g) (speed g) (score g) (coins g) (runnerLane g)
    (targetLane g) (laneX g) (obstacles g) (coinPool g) (scrollOff g)
    (elapsed g) v (coinTimer g) (frame g).
Definition set_coinTimer (v : T) (g : game) : game :=
  Game (width g) (height g) (speed g) (score g) (coins g) (runnerLane g)
    (targetLane g) (laneX g) (obstacles g) (coinPool g) (scrollOff g)
    (elapsed g) (spawnTimer g) v (frame g).
Definition set_frame (v : list ascii) (g : game) : game :=
  Game (width g) (height g) (speed g) (score g) (coins g) (runnerLane g)
    (targetLane g) (laneX g) (obstacles g) (coinPool g) (scrollOff g)
    (elapsed g) (spawnTimer g) (coinTimer g) v.

End State.

Arguments Obstacle {T}.
Arguments o_lane {T}.
Arguments o_z {T}.
Arguments o_active {T}.
Arguments CoinObj {T}.
Arguments c_lane {T}.
Arguments c_z {T}.
Arguments c_active {T}.
Arguments Game {T}.
Arguments width {T}.
Arguments height {T}.
Arguments speed {T}.
Arguments score {T}.
Arguments coins {T}.
Arguments runnerLane {T}.
Arguments targetLane {T}.
Arguments laneX {T}.
Arguments obstacles {T}.
Arguments coinPool {T}.
Arguments scrollOff {T}.
Arguments elapsed {T}.
Arguments spawnTimer {T}.
Arguments coinTimer {T}.
Arguments frame {T}.
Arguments set_speed {T} v g.
Arguments set_score {T} v g.
Arguments set_coins {T} v g.
Arguments set_runnerLane {T} v g.
Arguments set_targetLane {T} v g.
Arguments set_laneX {T} v g.
Arguments set_obstacles {T} v g.
Arguments set_coinPool {T} v g.
Arguments set_scrollOff {T} v g.
Arguments set_elapsed {T} v g.
Arguments set_spawnTimer {T} v g.
Arguments set_coinTimer {T} v g.
Arguments set_frame {T} v g.

Section Engine.
Context {FM : Float64}.
Local Open Scope fl_scope.

(** The zero value of a float64, and of the pool entries. *)
Definition fzero : F := of_int 0.

Definition newGame (w h : Z) : game F :=
  {| width := w; height := h; speed := of_int 6; score := 0; coins := 0;
     runnerLane := 1; targetLane := 1; laneX := of_int 1;
     obstacles := replicate 20 (Obstacle 0 fzero false);
     coinPool := replicate 30 (CoinObj 0 fzero false);
     scrollOff := fzero; elapsed := fzero; spawnTimer := fzero;
     coinTimer := fzero; frame := [] |}.

(** ** update (lines 68-146) *)

(** Lines 69-78: clock, distance score, speed ramp, scroll offset. *)
Definition tick (dt : F) (g : game F) : game F :=
  let g := set_elapsed (elapsed g ⊕ dt) g in
  let g := set_score (iadd (score g) (to_int (speed g ⊗ dt ⊗ of_int 10))) g in
  let g := set_speed (of_int 6 ⊕ elapsed g ⊗ dec 5 100) g in
  let g := if speed g ≻ of_int 16 then set_speed (of_int 16) g else g in
  set_scrollOff (scrollOff g ⊕ speed g ⊗ dt) g.

(** Lines 81-89, the body of the loop for one slot. *)
Definition moveObstacle (sp dt : F) (o : obstacle F) : obstacle F :=
  if negb (o_active o) then o
  else
    let z := o_z o ⊖ sp ⊗ dt in
    if z ≺ of_int (-1) then Obstacle (o_lane o) z false
    else Obstacle (o_lane o) z true.

Definition moveObstacles (dt : F) (g : game F) : game F :=
  set_obstacles (map (moveObstacle (speed g) dt) (obstacles g)) g.

(** Lines 92-106: the loop over the coin pool, threading the two counters
    the body increments. *)
Fixpoint moveCoinsLoop (sp dt : F) (rl : Z) (cs : list (coinObj F)) (n sc : Z)
  : list (coinObj F) * Z * Z :=
  match cs with
  | [] => ([], n, sc)
  | c :: cs' =>
      if negb (c_active c) then
        let '(cs'', n', sc') := moveCoinsLoop sp dt rl cs' n sc in
        (c :: cs'', n', sc')
      else
        let z := c_z c ⊖ sp ⊗ dt in
        let act := if z ≺ of_int (-1) then false else true in
        if (z ≺ of_int 2) && (z ≻ of_int 0) && bool_decide (c_lane c = rl) then
          let '(cs'', n', sc') :=
            moveCoinsLoop sp dt rl cs' (iadd n 1) (iadd sc 50) in
          (CoinObj (c_lane c) z false :: cs'', n', sc')
        else
          let '(cs'', n', sc') := moveCoinsLoop sp dt rl cs' n sc in
          (CoinObj (c_lane c) z act :: cs'', n', sc')
  end.

Definition moveCoins (dt : F) (g : game F) : game F :=
  let '(cs, n, sc) :=
    moveCoinsLoop (speed g) dt (runnerLane g) (coinPool g) (coins g) (score g) in
  set_score sc (set_coins n (set_coinPool cs g)).

(** spawnObstacle (lines 148-159): the first inactive slot is claimed; the
    generator is consulted only when there is one. *)
Fixpoint spawnObstacleLoop (os : list (obstacle F)) (r : rng) : list (obstacle F) * rng :=
  match os with
  | [] => ([], r)
  | o :: os' =>
      if negb (o_active o) then
        let '(l, r') := Intn numLanes r in
        (Obstacle l (of_int spawnZ) true :: os', r')
      else
        let '(os'', r') := spawnObstacleLoop os' r in (o :: os'', r')
  end.

Definition spawnObstacle (g : game F) (r : rng) : game F * rng :=
  let '(os, r') := spawnObstacleLoop (obstacles g) r in
  (set_obstacles os g, r').

(** spawnCoin (lines 161-175): the inner loop claims the first inactive slot
    for the [j]-th coin of the trail, or none. *)
Fixpoint claimCoin (lane j : Z) (cs : list (coinObj F)) : list (coinObj F) :=
  match cs with
  | [] => []
  | c :: cs' =>
      if negb (c_active c)
      then CoinObj lane (of_int spawnZ ⊕ of_int j ⊗ dec 15 10) true :: cs'
      else c :: claimCoin lane j cs'
  end.

Definition spawnCoin (g : game F) (r : rng) : game F * rng :=
  let '(lane, r') := Intn numLanes r in
  let cs := claimCoin lane 2 (claimCoin lane 1 (claimCoin lane 0 (coinPool g))) in
  (set_coinPool cs g, r').

(** Lines 108-124: the two spawn timers. *)
Definition spawnStep (dt : F) (g : game F) (r : rng) : game F * rng :=
  let g := set_spawnTimer (spawnTimer g ⊕ dt) g in
  let interval := of_int 2 ⊖ speed g ⊗ dec 6 100 in
  let interval := if interval ≺ dec 7 10 then dec 7 10 else interval in
  let '(g, r) :=
    if spawnTimer g ≽ interval
    then spawnObstacle (set_spawnTimer (spawnTimer g ⊖ interval) g) r
    else (g, r) in
  let g := set_coinTimer (coinTimer g ⊕ dt) g in
  if coinTimer g ≽ dec 6 10
  then spawnCoin (set_coinTimer (coinTimer g ⊖ dec 6 10) g) r
  else (g, r).

(** autoDodge (lines 177-211). *)
Definition markDanger (danger : list bool) (o : obstacle F) : result (list bool) :=
  if negb (o_active o) then Ok danger
  else if (o_z o ≻ of_int 0) && (o_z o ≺ of_int dodgeLookahead)
       then arr_set danger (o_lane o) true
       else Ok danger.

Definition dangerFlags (os : list (obstacle F)) : result (list bool) :=
  foldM markDanger os (replicate (Z.to_nat numLanes) false).

Definition coinInLane (l : Z) (best : Z) (c : coinObj F) : Z :=
  if c_active c && bool_decide (c_lane c = l) && (c_z c ≺ of_int dodgeLookahead)
  then l else best.

Definition pickLane (danger : list bool) (cs : list (coinObj F)) (l : Z) (best : Z)
  : result Z :=
  d ← arr_get danger l;
  if negb d then
    let best := if bool_decide (best = -1) then l else best in
    Ok (fold_left (coinInLane l) cs best)
  else Ok best.

Definition autoDodge (g : game F) : result (game F) :=
  danger ← dangerFlags (obstacles g);
  let cur := targetLane g in
  d ← arr_get danger cur;
  if negb d then Ok g
  else
    bestLane ← for_loop 0 numLanes (pickLane danger (coinPool g)) (-1)%Z;
    if bool_decide (0 ≤ bestLane) then Ok (set_targetLane bestLane g) else Ok g.

(** Lines 129-145: the smooth lane transition. *)
Definition laneStep (dt : F) (g : game F) : game F :=
  let target := of_int (targetLane g) in
  let diff := target ⊖ laneX g in
  if diff ≻ dec 5 100 then
    let g := set_laneX (laneX g ⊕ dt ⊗ of_int 8) g in
    if laneX g ≻ target then set_laneX target g else g
  else if diff ≺ dec (-5) 100 then
    let g := set_laneX (laneX g ⊖ dt ⊗ of_int 8) g in
    if laneX g ≺ target then set_laneX target g else g
  else set_runnerLane (targetLane g) (set_laneX target g).

Definition update (dt : F) (g : game F) (r : rng) : result (game F * rng) :=
  let g := tick dt g in
  let g := moveObstacles dt g in
  let g := moveCoins dt g in
  let '(g, r) := spawnStep dt g r in
  g ← autoDodge g;
  Ok (laneStep dt g, r).

(** ** render (lines 213-443) *)

(** [buf[i]] and [buf[i] = c] on a row buffer. *)
Definition bget (buf : list ascii) (i : Z) : result ascii :=
  if bool_decide (0 ≤ i < Z.of_nat (length buf))
  then match buf !! Z.to_nat i with Some c => Ok c | None => Panic BufIndex end
  else Panic BufIndex.

Definition bset (buf : list ascii) (i : Z) (c : ascii) : result (list ascii) :=
  if bool_decide (0 ≤ i < Z.of_nat (length buf))
  then Ok (<[Z.to_nat i := c]> buf)
  else Panic BufIndex.

Definition len {A} (l : list A) : Z := Z.of_nat (length l).

(** [make([]byte, n)]. *)
Definition make_buf (n : Z) : result (list ascii) :=
  if bool_decide (n < 0) then Panic BadLen
  else Ok (replicate (Z.to_nat n) zero).

(** [a % b] with a divisor that is not a constant. *)
Definition rem_checked (a b : Z) : result Z :=
  if bool_decide (b = 0) then Panic DivByZero else Ok (irem a b).

(** [for i := range buf { buf[i] = c }]. *)
Definition fill (c : ascii) (buf : list ascii) : result (list ascii) :=
  for_loop 0 (len buf) (λ i b, bset b i c) buf.

(** placeStringBytes (lines 436-443). *)
Fixpoint placeLoop (buf : list ascii) (x i : Z) (s : list ascii)
  : result (list ascii) :=
  match s with
  | [] => Ok buf
  | c :: s' =>
      let px := iadd x i in
      buf' ← (if bool_decide (0 ≤ px) && bool_decide (px < len buf)
              then bset buf px c else Ok buf);
      placeLoop buf' x (i + 1) s'
  end.

Definition placeStringBytes (buf : list ascii) (x : Z) (s : list ascii)
  : result (list ascii) :=
  placeLoop buf x 0 s.

Definition placeString (buf : list ascii) (x : Z) (s : string)
  : result (list ascii) :=
  placeStringBytes buf x (list_ascii_of_string s).

(** [fmt.Sprintf]'s verbs [%d] and [%07d]. *)
Definition digits (n : Z) : list ascii :=
  list_ascii_of_string (NilZero.string_of_uint (N.to_uint (Z.to_N n))).

Definition fmt_d (n : Z) : list ascii :=
  if bool_decide (n < 0) then "-"%char :: digits (- n) else digits n.

Definition fmt_07d (n : Z) : list ascii :=
  if bool_decide (n < 0)
  then "-"%char :: replicate (6 - length (digits (- n))) "0"%char ++ digits (- n)
  else replicate (7 - length (digits n)) "0"%char ++ digits n.

(** drawSky (lines 260-278). *)
Definition drawSky (g : game F) (buf : list ascii) (row horizon : Z)
  : result (list ascii) :=
  buf ← (if bool_decide (irem row 3 = 0) then
           pos ← rem_checked (iadd (imul row 17) 11) (len buf);
           buf ← (if bool_decide (0 ≤ pos) && bool_decide (pos < len buf)
                  then bset buf pos "."%char else Ok buf);
           pos2 ← rem_checked (iadd (imul row 31) 7) (len buf);
           if bool_decide (0 ≤ pos2) && bool_decide (pos2 < len buf)
           then bset buf pos2 "."%char else Ok buf
         else Ok buf);
  if bool_decide (row = isub horizon 1) then fill "_"%char buf else Ok buf.

(** Lines 346-378, the body of the loop over the obstacle pool.  The loop
    [for x := ox; x < ox+ow && x < g.width; x++] runs over the [x] from [ox]
    below both bounds. *)
Definition drawObstacle (g : game F) (row horizon center : Z)
    (buf : list ascii) (obs : obstacle F) : result (list ascii) :=
  if negb (o_active obs) || (o_z obs ≺ dec 5 10) then Ok buf
  else
    let obsDepth := of_int 1 ⊖ o_z obs ⊘ of_int farZ in
    if (obsDepth ≺ of_int 0) || (obsDepth ≻ of_int 1) then Ok buf
    else
      let obsRow :=
        iadd horizon (to_int (obsDepth ⊗ of_int (isub (height g) horizon))) in
      if bool_decide (isub obsRow 2 ≤ row) && bool_decide (row ≤ obsRow) then
        let obsTw :=
          to_int (of_int trackWidth ⊗ (of_int 1 ⊖ o_z obs ⊘ of_int farZ)) in
        if bool_decide (obsTw < 3) then Ok buf
        else
          let obsLeft := isub center (idiv obsTw 2) in
          let obsLW := of_int obsTw ⊘ of_int numLanes in
          let ox :=
            iadd obsLeft
              (to_int (of_int (o_lane obs) ⊗ obsLW ⊕ obsLW ⊗ dec 15 100)) in
          let ow := to_int (obsLW ⊗ dec 7 10) in
          let ow := if bool_decide (ow < 1) then 1 else ow in
          for_loop ox (Z.min (iadd ox ow) (width g))
            (λ x b, if bool_decide (0 ≤ x) then
                      if bool_decide (row = isub obsRow 2)
                      then bset b x "#"%char else bset b x "#"%char
                    else Ok b)
            buf
      else Ok buf.

(** Lines 381-403, the body of the loop over the coin pool. *)
Definition drawCoin (g : game F) (row horizon center : Z)
    (buf : list ascii) (cn : coinObj F) : result (list ascii) :=
  if negb (c_active cn) || (c_z cn ≺ dec 5 10) then Ok buf
  else
    let coinDepth := of_int 1 ⊖ c_z cn ⊘ of_int farZ in
    if (coinDepth ≺ of_int 0) || (coinDepth ≻ of_int 1) then Ok buf
    else
      let coinRow :=
        iadd horizon (to_int (coinDepth ⊗ of_int (isub (height g) horizon))) in
      if bool_decide (row = coinRow) then
        let cnTw :=
          to_int (of_int trackWidth ⊗ (of_int 1 ⊖ c_z cn ⊘ of_int farZ)) in
        if bool_decide (cnTw < 3) then Ok buf
        else
          let cnLeft := isub center (idiv cnTw 2) in
          let cnLW := of_int cnTw ⊘ of_int numLanes in
          let cx :=
            iadd cnLeft
              (to_int (of_int (c_lane cn) ⊗ cnLW ⊕ cnLW ⊗ dec 5 10)) in
          if bool_decide (0 ≤ cx) && bool_decide (cx < width g)
          then bset buf cx "o"%char else Ok buf
      else Ok buf.

(** Lines 405-427: the runner, three rows tall. *)
Definition legs : list string :=
  ["/ \"%string; "| |"%string; "\ /"%string; "| |"%string].

Definition drawRunner (g : game F) (row horizon center : Z) (buf : list ascii)
  : result (list ascii) :=
  let runnerDepth := dec 85 100 in
  let runnerScreenRow :=
    iadd horizon (to_int (runnerDepth ⊗ of_int (isub (height g) horizon))) in
  let rTw := to_int (of_int trackWidth ⊗ runnerDepth) in
  let rLeft := isub center (idiv rTw 2) in
  let rLW := of_int rTw ⊘ of_int numLanes in
  let rx := iadd rLeft (to_int (laneX g ⊗ rLW ⊕ rLW ⊗ dec 5 10)) in
  if bool_decide (row = isub runnerScreenRow 2) then
    if bool_decide (0 ≤ rx) && bool_decide (rx < width g)
    then bset buf rx "O"%char else Ok buf
  else if bool_decide (row = isub runnerScreenRow 1) then
    placeStringBytes buf (isub rx 1) (list_ascii_of_string "/|\")
  else if bool_decide (row = runnerScreenRow) then
    let frame := irem (to_int (elapsed g ⊗ of_int 8)) 4 in
    l ← arr_get legs frame;
    placeStringBytes buf (isub rx 1) (list_ascii_of_string l)
  else Ok buf.

(** drawGround (lines 280-430). *)
Definition drawGround (g : game F) (buf : list ascii) (row horizon trackLeft : Z)
  : result (list ascii) :=
  let depth := of_int (isub row horizon) ⊘ of_int (isub (height g) horizon) in
  if depth ≼ of_int 0 then Ok buf
  else
    let tw := to_int (of_int trackWidth ⊗ depth) in
    let tw := if bool_decide (tw < 3) then 3 else tw in
    let center := idiv (width g) 2 in
    let left := isub center (idiv tw 2) in
    let right := iadd center (idiv tw 2) in
    let left := if bool_decide (left < 0) then 0 else left in
    let right := if bool_decide (width g ≤ right) then isub (width g) 1 else right in
    (* ground texture *)
    buf ← for_loop 0 (len buf)
            (λ i b, if bool_decide (irem (iadd i row) 5 = 0)
                    then bset b i "."%char else Ok b) buf;
    (* track surface: for x := left; x <= right; x++ *)
    buf ← for_loop left (right + 1) (λ x b, bset b x " "%char) buf;
    (* rails *)
    buf ← (if bool_decide (0 ≤ left) && bool_decide (left < width g)
           then bset buf left "|"%char else Ok buf);
    buf ← (if bool_decide (0 ≤ right) && bool_decide (right < width g)
           then bset buf right "|"%char else Ok buf);
    (* lane dividers *)
    let lw := of_int tw ⊘ of_int numLanes in
    buf ← for_loop 1 numLanes
            (λ l b,
               let dx := iadd left (to_int (of_int l ⊗ lw)) in
               if bool_decide (left < dx) && bool_decide (dx < right)
                  && bool_decide (dx < width g) then
                 let scrollRow := iadd (to_int (scrollOff g ⊗ of_int 2)) row in
                 if bool_decide (irem scrollRow 3 ≠ 0)
                 then bset b dx ":"%char else Ok b
               else Ok b) buf;
    (* cross-ties *)
    let scrollRow := of_int row ⊕ scrollOff g ⊗ of_int 3 in
    buf ← (if bool_decide (irem (to_int scrollRow) 4 = 0) then
             for_loop (iadd left 1) right
               (λ x b, c ← bget b x;
                       if Ascii.eqb c " "%char
                       then bset b x "-"%char else Ok b) buf
           else Ok buf);
    buf ← foldM (drawObstacle g row horizon center) (obstacles g) buf;
    buf ← foldM (drawCoin g row horizon center) (coinPool g) buf;
    drawRunner g row horizon center buf.

(** renderRow (lines 233-258). *)
Definition renderRow (g : game F) (row horizon trackLeft : Z)
  : result (list ascii) :=
  buf ← make_buf (width g);
  buf ← fill " "%char buf;
  buf ← (if bool_decide (row < horizon)
         then drawSky g buf row horizon
         else drawGround g buf row horizon trackLeft);
  buf ← (if bool_decide (row = 0) then
           let hud := list_ascii_of_string " SCORE: " ++ fmt_07d (score g)
                      ++ list_ascii_of_string " " in
           placeStringBytes buf (isub (isub (width g) (len hud)) 1) hud
         else Ok buf);
  if bool_decide (row = 1) then
    let hud := list_ascii_of_string " COINS: " ++ fmt_d (coins g)
               ++ list_ascii_of_string " " in
    placeStringBytes buf (isub (isub (width g) (len hud)) 1) hud
  else Ok buf.

(** render (lines 213-231): the frame is rebuilt in [g.frame], the only field
    written, and returned. *)
Definition cursorHome : list ascii := [ascii_of_nat 27; "["%char; "H"%char].
Definition crlf : list ascii := [ascii_of_nat 13; ascii_of_nat 10].

Definition render (g : game F) : result (game F * list ascii) :=
  let g := set_frame [] g in
  let g := set_frame (frame g ++ cursorHome) g in
  let horizon := idiv (height g) 3 in
  let trackLeft := idiv (isub (width g) trackWidth) 2 in
  g ← for_loop 0 (height g)
        (λ row g,
           line ← renderRow g row horizon trackLeft;
           let g := set_frame (frame g ++ line) g in
           if bool_decide (row < isub (height g) 1)
           then Ok (set_frame (frame g ++ crlf) g) else Ok g) g;
  Ok (g, frame g).

End Engine.

(** * Vocabulary of the properties *)

Section Vocabulary.
Context {FM : Float64}.
Local Open Scope fl_scope.

(** The spec's danger flag of a lane: some active obstacle occupies it with
    depth in (0, dodgeLookahead). *)
Definition threatens (l : Z) (o : obstacle F) : bool :=
  o_active o && (o_z o ≻ of_int 0) && (o_z o ≺ of_int dodgeLookahead)
  && bool_decide (o_lane o = l).

Definition laneDanger (os : list (obstacle F)) (l : Z) : bool :=
  existsb (threatens l) os.

(** What keeps [autoDodge] from panicking: lanes are array indices. *)
Definition lanes_ok (g : game F) : Prop :=
  0 ≤ targetLane g < numLanes ∧
  Forall (λ o, 0 ≤ o_lane o < numLanes) (obstacles g).

(** The test of line 101 on the depth the coin has after line 96. *)
Definition collects (sp dt : F) (rl : Z) (c : coinObj F) : bool :=
  c_active c
  && ((c_z c ⊖ sp ⊗ dt ≺ of_int 2) && (c_z c ⊖ sp ⊗ dt ≻ of_int 0)
      && bool_decide (c_lane c = rl)).

(** What one iteration of the loop leaves in the slot. *)
Definition moveCoin (sp dt : F) (rl : Z) (c : coinObj F) : coinObj F :=
  if negb (c_active c) then c
  else if collects sp dt rl c then CoinObj (c_lane c) (c_z c ⊖ sp ⊗ dt) false
  else CoinObj (c_lane c) (c_z c ⊖ sp ⊗ dt)
         (negb (c_z c ⊖ sp ⊗ dt ≺ of_int (-1))).

Definition collected (sp dt : F) (rl : Z) (cs : list (coinObj F)) : nat :=
  length (filter (λ c, collects sp dt rl c = true) cs).

Definition adv (r : rng) : rng := (Intn numLanes r).2.

(** Lines 109-115 and 120-122 without the two spawn calls. *)
Definition spawnTimers (dt : F) (g : game F) : game F :=
  let g := set_spawnTimer (spawnTimer g ⊕ dt) g in
  let interval := of_int 2 ⊖ speed g ⊗ dec 6 100 in
  let interval := if interval ≺ dec 7 10 then dec 7 10 else interval in
  let g := if spawnTimer g ≽ interval
           then set_spawnTimer (spawnTimer g ⊖ interval) g else g in
  let g := set_coinTimer (coinTimer g ⊕ dt) g in
  if coinTimer g ≽ dec 6 10
  then set_coinTimer (coinTimer g ⊖ dec 6 10) g else g.

Definition obstacleDue (dt : F) (g : game F) : bool :=
  let interval := of_int 2 ⊖ speed g ⊗ dec 6 100 in
  let interval := if interval ≺ dec 7 10 then dec 7 10 else interval in
  spawnTimer g ⊕ dt ≽ interval.

Definition coinDue (dt : F) (g : game F) : bool :=
  coinTimer g ⊕ dt ≽ dec 6 10.

Definition trail (lane : Z) (cs : list (coinObj F)) : list (coinObj F) :=
  claimCoin lane 2 (claimCoin lane 1 (claimCoin lane 0 cs)).

(** [m] returns a value that satisfies [P], or panics with a fault that
    [allow] admits. *)
Definition guarded {A} (allow : fault → Prop) (P : A → Prop) (m : result A)
  : Prop :=
  match m with Ok a => P a | Panic f => allow f end.

Definition sized (w : nat) (b : list ascii) : Prop := length b = w.









(** The main loop calls [update] once per tick. *)
Fixpoint run (dts : list F) (g : game F) (r : rng) : result (game F * rng) :=
  match dts with
  | [] => Ok (g, r)
  | dt :: dts' => '(g', r') ← update dt g r; run dts' g' r'
  end.

(** The speed ramp of lines 73-76. *)
Definition rampSpeed (e : F) : F :=
  if of_int 6 ⊕ e ⊗ dec 5 100 ≻ of_int 16 then of_int 16
  else of_int 6 ⊕ e ⊗ dec 5 100.

End Vocabulary.

(** ** Invariants of the engine, over exact rationals *)

Module Invariants.
Import Exact.
Local Open Scope fl_scope.
Local Open Scope Q_scope.




End Invariants.

(** * Scenarios *)

(** A random source that yields 0, 1, 2, 3, ... *)
Definition r0 : rng := Rng (λ n, Z.of_nat n) 0.

Section Scenarios.
Context {FM : Float64}.

(** One obstacle at lane 1, depth 10, in a fresh game (speed 6.0). *)
Definition oneObstacle : game F :=
  set_obstacles
    (<[0%nat := Obstacle 1 (of_int 10) true]> (obstacles (newGame 80 24)))
    (newGame 80 24).

(** One coin at lane 0, depth 1.0, the runner in lane 0. *)
Definition oneCoin : game F :=
  set_runnerLane 0
    (set_coinPool
       (<[0%nat := CoinObj 0 (of_int 1) true]> (coinPool (newGame 80 24)))
       (newGame 80 24)).

(** An obstacle at depth 5 in each of the three lanes. *)
Definition blocked : game F :=
  set_obstacles
    (<[0%nat := Obstacle 0 (of_int 5) true]>
       (<[1%nat := Obstacle 1 (of_int 5) true]>
          (<[2%nat := Obstacle 2 (of_int 5) true]>
             (obstacles (newGame 80 24)))))
    (newGame 80 24).

(** An obstacle at depth 5 in the target lane only. *)
Definition ahead : game F :=
  set_obstacles
    (<[0%nat := Obstacle 1 (of_int 5) true]> (obstacles (newGame 80 24)))
    (newGame 80 24).

(** Both pools full. *)
Definition crowded : game F :=
  set_coinPool (replicate 30 (CoinObj 1 (of_int 15) true))
    (set_obstacles (replicate 20 (Obstacle 0 (of_int 15) true))
       (newGame 80 24)).

(** Both spawn timers about to fire. *)
Definition due (g : game F) : game F :=
  set_coinTimer (of_int 1) (set_spawnTimer (of_int 2) g).


(** An obstacle in the runner's lane, one unit ahead. *)
Definition collision : game F :=
  set_obstacles
    (<[0%nat := Obstacle 1 (of_int 1) true]> (obstacles (newGame 80 24)))
    (newGame 80 24).


End Scenarios.

(** * More vocabulary: frames, lanes and timers *)

(** The rows of a frame, joined by CR LF. *)
Fixpoint joinRows (rows : list (list ascii)) : list ascii :=
  match rows with
  | [] => []
  | l :: rest =>
      match rest with [] => l | _ :: _ => l ++ crlf ++ joinRows rest end
  end.

Section MoreVocabulary.
Context {FM : Float64}.
Local Open Scope fl_scope.

(** The coin test of line 201 for a lane: some active coin of that lane is
    nearer than the lookahead. *)
Definition coinAhead (cs : list (coinObj F)) (l : Z) : bool :=
  existsb (λ c, c_active c && bool_decide (c_lane c = l)
                && (c_z c ≺ of_int dodgeLookahead)) cs.

(** The lane the scan of lines 193-207 ends with: the highest of the lanes
    that are not dangerous and hold such a coin, else the lowest of the lanes
    that are not dangerous. *)
Definition preferredLane (os : list (obstacle F)) (cs : list (coinObj F))
  : option Z :=
  let safe l := negb (laneDanger os l) in
  if safe 2 && coinAhead cs 2 then Some 2
  else if safe 1 && coinAhead cs 1 then Some 1
  else if safe 0 then Some 0
  else if safe 1 then Some 1
  else if safe 2 then Some 2
  else None.

(** What the engine relies on and keeps: lanes are indices of the three
    lanes and the pools have the sizes of their arrays. *)
Definition well_formed (g : game F) : Prop :=
  lanes_ok g ∧ 0 ≤ runnerLane g < numLanes ∧
  Forall (λ c, 0 ≤ c_lane c < numLanes) (coinPool g) ∧
  length (obstacles g) = 20%nat ∧ length (coinPool g) = 30%nat.

(** The screen row of the runner's legs and the column of its centre
    (lines 406-411). *)
Definition runnerRow (g : game F) (horizon : Z) : Z :=
  iadd horizon (to_int (dec 85 100 ⊗ of_int (isub (height g) horizon))).

Definition runnerCol (g : game F) : Z :=
  let rTw := to_int (of_int trackWidth ⊗ dec 85 100) in
  let rLW := of_int rTw ⊘ of_int numLanes in
  iadd (isub (idiv (width g) 2) (idiv rTw 2))
    (to_int (laneX g ⊗ rLW ⊕ rLW ⊗ dec 5 10)).

End MoreVocabulary.

(** ** More invariants, over exact rationals *)

Module MoreInvariants.
Import Exact.
Local Open Scope fl_scope.
Local Open Scope Q_scope.




End MoreInvariants.

(** ** More scenarios *)

Section MoreScenarios.
Context {FM : Float64}.

(** An obstacle at depth 5 in the target lane and a coin at depth 6 in
    lane 2. *)
Definition aheadWithCoin : game F :=
  set_coinPool (<[0%nat := CoinObj 2 (of_int 6) true]> (coinPool ahead)) ahead.

End MoreScenarios.

(** * Properties that hold for every implementation of float64 *)

(** ** The error monad and the loops *)

Lemma bind_Ok {A B} (m : result A) (k : A → result B) b :
  m ≫= k = Ok b → ∃ a, m = Ok a ∧ k a = Ok b.
Proof. destruct m as [a|f]; simpl; [eauto | discriminate]. Qed.

Lemma iter_up_inv {St} (P : St → Prop) body n : ∀ x s s',
  P s → (∀ y t t', P t → body y t = Ok t' → P t') →
  iter_up n x body s = Ok s' → P s'.
Proof.
  induction n as [|n IH]; simpl; intros x s s' Hs Hbody Hrun.
  - by simplify_eq.
  - apply bind_Ok in Hrun as (t & Ht & Hrun). eauto.
Qed.

Lemma for_loop_inv {St} (P : St → Prop) lo hi body (s s' : St) :
  P s → (∀ y t t', P t → body y t = Ok t' → P t') →
  for_loop lo hi body s = Ok s' → P s'.
Proof. unfold for_loop. apply iter_up_inv. Qed.

Section Generic.
Context {FM : Float64}.
Local Open Scope fl_scope.

Lemma set_obstacles_id (g : game F) : set_obstacles (obstacles g) g = g.
Proof. by destruct g. Qed.

Lemma set_coinPool_id (g : game F) : set_coinPool (coinPool g) g = g.
Proof. by destruct g. Qed.

Lemma set_targetLane_id (g : game F) : set_targetLane (targetLane g) g = g.
Proof. by destruct g. Qed.

(** ** Spawning into a full pool *)

Lemma spawnObstacleLoop_full os r :
  Forall (λ o, o_active o = true) os → spawnObstacleLoop os r = (os, r).
Proof.
  induction 1 as [|o os Ho _ IH]; simpl; [done|].
  by rewrite Ho, IH.
Qed.

Lemma claimCoin_full lane j cs :
  Forall (λ c, c_active c = true) cs → claimCoin lane j cs = cs.
Proof.
  induction 1 as [|c cs Hc _ IH]; simpl; [done|].
  by rewrite Hc, IH.
Qed.

(** C9. With every obstacle slot active [spawnObstacle] returns the game (and
    the random source) it was given; with every coin slot active [spawnCoin]
    returns the game it was given (the lane has been drawn before the pool
    is searched, so only the random source has moved).  No slot, no other
    field and no pool length changes, and neither function can panic. *)
Theorem spawn_into_full_pool_is_noop (g : game F) (r : rng) :
  (Forall (λ o, o_active o = true) (obstacles g) →
     spawnObstacle g r = (g, r)) ∧
  (Forall (λ c, c_active c = true) (coinPool g) →
     spawnCoin g r = (g, (Intn numLanes r).2)).
Proof.
  split; intros Hfull.
  - unfold spawnObstacle.
    rewrite spawnObstacleLoop_full by done. by rewrite set_obstacles_id.
  - unfold spawnCoin. destruct (Intn numLanes r) as [lane r'] eqn:Hdraw.
    rewrite (claimCoin_full lane 0), (claimCoin_full lane 1),
      (claimCoin_full lane 2) by done.
    by rewrite set_coinPool_id.
Qed.

(** ** The dodge heuristic *)

Lemma markDanger_spec d0 d1 d2 o d :
  markDanger [d0; d1; d2] o = Ok d →
  d = [d0 || threatens 0 o; d1 || threatens 1 o; d2 || threatens 2 o].
Proof.
  unfold markDanger, threatens, arr_set.
  destruct (o_active o); simpl.
  2: { intros; simplify_eq. by rewrite !orb_false_r. }
  destruct (o_z o ≻ of_int 0); simpl.
  2: { intros; simplify_eq. by rewrite !orb_false_r. }
  destruct (o_z o ≺ of_int dodgeLookahead); simpl.
  2: { intros; simplify_eq. by rewrite !orb_false_r. }
  case_bool_decide as Hl; [|discriminate].
  intros; simplify_eq.
  assert (o_lane o = 0 ∨ o_lane o = 1 ∨ o_lane o = 2) as [-> | [-> | ->]] by lia;
    simpl; by rewrite ?orb_true_r, ?orb_false_r.
Qed.

Lemma markDanger_total d0 d1 d2 o :
  0 ≤ o_lane o < numLanes → ∃ d, markDanger [d0; d1; d2] o = Ok d.
Proof.
  intros Hl. unfold markDanger, arr_set.
  destruct (negb (o_active o)); [eauto|].
  destruct (_ && _); [|eauto].
  rewrite bool_decide_true by (simpl; unfold numLanes in Hl; lia). eauto.
Qed.

Lemma foldM_markDanger_spec os : ∀ d0 d1 d2 d,
  foldM markDanger os [d0; d1; d2] = Ok d →
  d = [d0 || laneDanger os 0; d1 || laneDanger os 1; d2 || laneDanger os 2].
Proof.
  induction os as [|o os IH]; simpl; intros d0 d1 d2 d Hrun.
  - simplify_eq. by rewrite !orb_false_r.
  - apply bind_Ok in Hrun as (d' & Ho & Hrun).
    apply markDanger_spec in Ho as ->. apply IH in Hrun as ->.
    by rewrite !orb_assoc.
Qed.

Lemma foldM_markDanger_total os : ∀ d0 d1 d2,
  Forall (λ o, 0 ≤ o_lane o < numLanes) os →
  ∃ d, foldM markDanger os [d0; d1; d2] = Ok d.
Proof.
  induction os as [|o os IH]; simpl; intros d0 d1 d2 Hos; [eauto|].
  inversion_clear Hos as [|?? Ho Hos'].
  destruct (markDanger_total d0 d1 d2 o Ho) as [d Hd].
  rewrite Hd; simpl. rewrite (markDanger_spec _ _ _ _ _ Hd). by apply IH.
Qed.

Lemma dangerFlags_spec os d :
  dangerFlags os = Ok d →
  d = [laneDanger os 0; laneDanger os 1; laneDanger os 2].
Proof. apply foldM_markDanger_spec. Qed.

Lemma coinInLane_fold l cs : ∀ best,
  fold_left (coinInLane l) cs best = l ∨ fold_left (coinInLane l) cs best = best.
Proof.
  induction cs as [|c cs IH]; simpl; intros best; [by right|].
  destruct (IH (coinInLane l best c)) as [H|H]; rewrite H; [by left|].
  unfold coinInLane. destruct (_ && _); auto.
Qed.

(** The scan of lines 194-207: the lane it returns is not dangerous, and it
    returns -1 exactly when every lane is. *)
Lemma pickLane_scan d0 d1 d2 cs :
  ∃ b, for_loop 0 numLanes (pickLane [d0; d1; d2] cs) (-1) = Ok b ∧
       ((b = -1 ∧ d0 = true ∧ d1 = true ∧ d2 = true) ∨
        (b = 0 ∧ d0 = false) ∨ (b = 1 ∧ d1 = false) ∨ (b = 2 ∧ d2 = false)).
Proof.
  unfold for_loop, pickLane; simpl.
  destruct d0, d1, d2; simpl;
    repeat match goal with
    | |- context [fold_left (coinInLane ?l) cs ?b] =>
        let H := fresh in
        destruct (coinInLane_fold l cs b) as [H|H]; rewrite H; clear H; simpl
    end;
    eexists; (split; [reflexivity|]); naive_solver.
Qed.

Lemma autoDodge_unfold g d0 d1 d2 :
  dangerFlags (obstacles g) = Ok [d0; d1; d2] →
  0 ≤ targetLane g < numLanes →
  ∃ d b, [d0; d1; d2] !! Z.to_nat (targetLane g) = Some d ∧
    for_loop 0 numLanes (pickLane [d0; d1; d2] (coinPool g)) (-1) = Ok b ∧
    autoDodge g =
      Ok (if negb d then g
          else if bool_decide (0 ≤ b) then set_targetLane b g else g).
Proof.
  intros Hd Hcur. unfold autoDodge. rewrite Hd; simpl.
  destruct (pickLane_scan d0 d1 d2 (coinPool g)) as (b & Hb & _).
  unfold arr_get. rewrite bool_decide_true by (simpl; unfold numLanes in Hcur; lia).
  assert (targetLane g = 0 ∨ targetLane g = 1 ∨ targetLane g = 2) as Hc
    by (unfold numLanes in Hcur; lia).
  destruct Hc as [Hc|[Hc|Hc]]; rewrite Hc; simpl;
    eexists _, b; (split; [reflexivity|]); (split; [done|]);
    rewrite Hb; simpl; by repeat case_match.
Qed.

Lemma autoDodge_total g : lanes_ok g → ∃ g', autoDodge g = Ok g'.
Proof.
  intros [Hcur Hos].
  destruct (foldM_markDanger_total (obstacles g) false false false Hos)
    as [d Hd].
  pose proof (dangerFlags_spec _ _ Hd) as ->.
  destruct (autoDodge_unfold g _ _ _ Hd Hcur) as (? & ? & _ & _ & ->). eauto.
Qed.

Lemma autoDodge_sound g g' :
  autoDodge g = Ok g' →
  g' = set_targetLane (targetLane g') g ∧
  (targetLane g' ≠ targetLane g →
     laneDanger (obstacles g) (targetLane g) = true ∧
     0 ≤ targetLane g' < numLanes ∧
     laneDanger (obstacles g) (targetLane g') = false) ∧
  (laneDanger (obstacles g) (targetLane g) = false → g' = g) ∧
  ((∀ l, 0 ≤ l < numLanes → laneDanger (obstacles g) l = true) → g' = g).
Proof.
  intros Hrun.
  assert (∃ d, dangerFlags (obstacles g) = Ok d) as [d Hd].
  { unfold autoDodge in Hrun. destruct (dangerFlags (obstacles g)); eauto.
    discriminate. }
  pose proof (dangerFlags_spec _ _ Hd) as ->.
  assert (0 ≤ targetLane g < numLanes) as Hcur.
  { unfold autoDodge in Hrun. rewrite Hd in Hrun; simpl in Hrun.
    unfold arr_get in Hrun. case_bool_decide as Hc; [|discriminate].
    simpl in Hc. unfold numLanes. lia. }
  destruct (autoDodge_unfold g _ _ _ Hd Hcur) as (dc & b & Hdc & Hb & Hg').
  rewrite Hrun in Hg'. injection Hg' as ->.
  destruct (pickLane_scan (laneDanger (obstacles g) 0)
              (laneDanger (obstacles g) 1) (laneDanger (obstacles g) 2)
              (coinPool g)) as (b' & Hb' & Hscan).
  rewrite Hb in Hb'. injection Hb' as <-.
  assert (laneDanger (obstacles g) (targetLane g) = dc) as Hdcur.
  { assert (targetLane g = 0 ∨ targetLane g = 1 ∨ targetLane g = 2)
      as [Hc|[Hc|Hc]] by (unfold numLanes in Hcur; lia);
      rewrite Hc in Hdc |- *; simpl in Hdc; congruence. }
  rewrite Hdcur. unfold numLanes. clear Hdc Hb Hd Hrun.
  destruct dc; simpl;
    [|rewrite set_targetLane_id; split; [by destruct g|]; by repeat split].
  destruct Hscan as [(-> & H0 & H1 & H2)|[(-> & H0)|[(-> & H0)|(-> & H0)]]];
    simpl; rewrite ?set_targetLane_id;
    (split; [by destruct g|]); (split; [|split]); try done;
    try (intros _; repeat split; (done || lia));
    intros Hall; rewrite Hall in H0 by lia; done.
Qed.

(** C3. [autoDodge] returns for every state whose lanes are array indices;
    whenever it returns, at most [targetLane] has changed, and it has changed
    only if the lane that was the target is dangerous and the new target is
    one of the three lanes and not dangerous.  In particular a target lane
    that is not dangerous is kept whatever the coins, and so is any target
    when all three lanes are dangerous. *)
Theorem autoDodge_moves_only_off_a_dangerous_lane (g : game F) :
  (lanes_ok g → ∃ g', autoDodge g = Ok g') ∧
  (∀ g', autoDodge g = Ok g' →
     g' = set_targetLane (targetLane g') g ∧
     (targetLane g' ≠ targetLane g →
        laneDanger (obstacles g) (targetLane g) = true ∧
        0 ≤ targetLane g' < numLanes ∧
        laneDanger (obstacles g) (targetLane g') = false) ∧
     (laneDanger (obstacles g) (targetLane g) = false → g' = g) ∧
     ((∀ l, 0 ≤ l < numLanes → laneDanger (obstacles g) l = true) → g' = g)).
Proof. split; [apply autoDodge_total | apply autoDodge_sound]. Qed.

(** ** The movement pass over the coin pool *)

Lemma moveCoinsLoop_spec sp dt rl cs : ∀ n sc,
  moveCoinsLoop sp dt rl cs n sc =
    (map (moveCoin sp dt rl) cs,
     Nat.iter (collected sp dt rl cs) (λ n, iadd n 1) n,
     Nat.iter (collected sp dt rl cs) (λ s, iadd s 50) sc).
Proof.
  unfold collected.
  induction cs as [|c cs IH]; intros n sc; [done|].
  cbn [moveCoinsLoop map]. unfold moveCoin, collects.
  destruct (c_active c) eqn:Hact; cbn [negb andb].
  - destruct (_ && _ && _) eqn:Hcol.
    + rewrite IH, filter_cons_True by (unfold collects; by rewrite Hact, Hcol).
      cbn [length]. by rewrite !Nat.iter_succ_r.
    + rewrite IH, filter_cons_False
        by (unfold collects; by rewrite Hact, Hcol).
      by destruct (_ ≺ _).
  - rewrite IH, filter_cons_False by (unfold collects; by rewrite Hact).
    by destruct c; simplify_eq/=.
Qed.

(** What the clock phase and the obstacle pass leave alone. *)
Lemma tick_frame dt g :
  coinPool (tick dt g) = coinPool g ∧ obstacles (tick dt g) = obstacles g ∧
  coins (tick dt g) = coins g ∧ runnerLane (tick dt g) = runnerLane g ∧
  targetLane (tick dt g) = targetLane g ∧ laneX (tick dt g) = laneX g ∧
  spawnTimer (tick dt g) = spawnTimer g ∧ coinTimer (tick dt g) = coinTimer g.
Proof. unfold tick. cbv zeta. by case_match. Qed.

Lemma moveCoins_unfold dt g :
  moveCoins dt g =
    set_score (Nat.iter (collected (speed g) dt (runnerLane g) (coinPool g))
                 (λ s, iadd s 50) (score g))
      (set_coins (Nat.iter (collected (speed g) dt (runnerLane g) (coinPool g))
                    (λ n, iadd n 1) (coins g))
         (set_coinPool (map (moveCoin (speed g) dt (runnerLane g)) (coinPool g))
            g)).
Proof. unfold moveCoins. by rewrite moveCoinsLoop_spec. Qed.

Lemma move_pass dt g :
  let g1 := moveCoins dt (moveObstacles dt g) in
  let k := collected (speed g) dt (runnerLane g) (coinPool g) in
  coinPool g1 = map (moveCoin (speed g) dt (runnerLane g)) (coinPool g) ∧
  coins g1 = Nat.iter k (λ n, iadd n 1) (coins g) ∧
  score g1 = Nat.iter k (λ s, iadd s 50) (score g).
Proof. cbv zeta. rewrite moveCoins_unfold. by destruct g. Qed.

(** The phases after the movement pass leave the counters alone. *)
Lemma spawnObstacle_frame g r :
  (spawnObstacle g r).1 = set_obstacles (obstacles (spawnObstacle g r).1) g.
Proof. unfold spawnObstacle. by destruct (spawnObstacleLoop _ _). Qed.

Lemma spawnCoin_frame g r :
  (spawnCoin g r).1 = set_coinPool (coinPool (spawnCoin g r).1) g.
Proof. unfold spawnCoin. by destruct (Intn _ _). Qed.

Lemma spawnStep_counters dt g r :
  score (spawnStep dt g r).1 = score g ∧ coins (spawnStep dt g r).1 = coins g.
Proof.
  unfold spawnStep. cbv zeta.
  repeat match goal with
  | |- context [if ?b then _ else _] => destruct b
  | |- context [spawnObstacle ?g ?r] =>
      let H := fresh in
      pose proof (spawnObstacle_frame g r) as H;
      destruct (spawnObstacle g r); simpl in H; rewrite H; clear H
  | |- context [spawnCoin ?g ?r] =>
      let H := fresh in
      pose proof (spawnCoin_frame g r) as H;
      destruct (spawnCoin g r); simpl in H; rewrite H; clear H
  end; done.
Qed.

Lemma autoDodge_frame g g' :
  autoDodge g = Ok g' → g' = set_targetLane (targetLane g') g.
Proof.
  unfold autoDodge. intros Hrun.
  do 2 (apply bind_Ok in Hrun as (? & _ & Hrun)).
  case_match; [|apply bind_Ok in Hrun as (? & _ & Hrun); case_match];
    simplify_eq;
    match goal with |- _ = set_targetLane _ ?x => by destruct x end.
Qed.

Lemma laneStep_counters dt g :
  score (laneStep dt g) = score g ∧ coins (laneStep dt g) = coins g.
Proof. unfold laneStep. cbv zeta. by repeat case_match. Qed.

(** C1. Let [sp] be the speed of this tick and [z - sp*dt] the depth a coin
    has after the movement of line 96.  The loop over the coin pool leaves in
    every slot what [moveCoin] says: an active coin with that depth in (0, 2)
    in the runner's lane is deactivated; an inactive slot is left as it is
    and never collected; any other active coin stays active unless its depth
    fell below -1.  [coins] is incremented by exactly 1 and [score] by
    exactly 50, once per collected coin, and nothing later in [update]
    touches the two counters. *)
Theorem coin_collected_once (dt : F) (g : game F) (r : rng) :
  let g0 := tick dt g in
  let sp := speed g0 in
  let rl := runnerLane g in
  let g1 := moveCoins dt (moveObstacles dt g0) in
  let k := collected sp dt rl (coinPool g) in
  (∀ i c, coinPool g !! i = Some c →
     coinPool g1 !! i = Some (moveCoin sp dt rl c) ∧
     (collects sp dt rl c = true →
        moveCoin sp dt rl c = CoinObj (c_lane c) (c_z c ⊖ sp ⊗ dt) false) ∧
     (c_active c = false →
        collects sp dt rl c = false ∧ moveCoin sp dt rl c = c) ∧
     (c_active c = true → collects sp dt rl c = false →
        moveCoin sp dt rl c =
          CoinObj (c_lane c) (c_z c ⊖ sp ⊗ dt)
            (negb (c_z c ⊖ sp ⊗ dt ≺ of_int (-1))))) ∧
  length (coinPool g1) = length (coinPool g) ∧
  coins g1 = Nat.iter k (λ n, iadd n 1) (coins g) ∧
  score g1 = Nat.iter k (λ s, iadd s 50) (score g0) ∧
  (k = 1%nat → coins g1 = iadd (coins g) 1 ∧ score g1 = iadd (score g0) 50) ∧
  (∀ g' r', update dt g r = Ok (g', r') →
     coins g' = coins g1 ∧ score g' = score g1).
Proof.
  intros g0 sp rl g1 k.
  assert (coinPool g1 = map (moveCoin sp dt rl) (coinPool g)
          ∧ coins g1 = Nat.iter k (λ n, iadd n 1) (coins g)
          ∧ score g1 = Nat.iter k (λ s, iadd s 50) (score g0))
    as (Hpool & Hcoins & Hscore).
  { subst g1 k sp rl. pose proof (move_pass dt g0) as Hmove.
    cbv zeta in Hmove. subst g0.
    destruct (tick_frame dt g) as (Hp & _ & Hn & Hrl & _).
    by rewrite <- Hp, <- Hn, <- Hrl. }
  split_and!.
  - intros i c Hi. split_and!.
    + by rewrite Hpool, list_lookup_fmap, Hi.
    + unfold moveCoin, collects. intros Hc.
      destruct (c_active c); [|done]. cbn in Hc; cbn.
      unfold collects. by rewrite Hc.
    + unfold moveCoin, collects. by intros ->.
    + unfold moveCoin. by intros -> ->.
  - by rewrite Hpool, length_map.
  - done.
  - done.
  - intros Hk. by rewrite Hcoins, Hscore, Hk.
  - intros g' r' Hrun. unfold update in Hrun. cbv zeta in Hrun.
    fold g0 in Hrun. fold g1 in Hrun.
    pose proof (spawnStep_counters dt g1 r) as [Hs Hc].
    destruct (spawnStep dt g1 r) as [g2 r2]. simpl in Hs, Hc.
    apply bind_Ok in Hrun as (g3 & Hdodge & Hrun).
    apply autoDodge_frame in Hdodge.
    pose proof (laneStep_counters dt g3) as [Hs' Hc'].
    simplify_eq. rewrite Hs', Hc', Hdodge, <- Hs, <- Hc. by destruct g2.
Qed.

(** ** What the phases of [update] depend on *)

Lemma spawnStep_unfold dt g r :
  let osr := if obstacleDue dt g then spawnObstacleLoop (obstacles g) r
             else (obstacles g, r) in
  let cp := if coinDue dt g then trail (Intn numLanes osr.2).1 (coinPool g)
            else coinPool g in
  let r' := if coinDue dt g then adv osr.2 else osr.2 in
  spawnStep dt g r = (set_coinPool cp (set_obstacles osr.1 (spawnTimers dt g)), r').
Proof.
  unfold spawnStep, spawnTimers, obstacleDue, coinDue, spawnObstacle,
    spawnCoin, trail, adv. destruct g; cbn.
  repeat match goal with
  | |- context [spawnObstacleLoop ?o ?r] => destruct (spawnObstacleLoop o r); cbn
  | |- context [Intn ?n ?r] => destruct (Intn n r); cbn
  | |- context [if ?b then _ else _] => destruct b eqn:?; cbn
  end; done.
Qed.

Lemma spawnTimers_frame dt g :
  spawnTimers dt g =
    set_coinTimer (coinTimer (spawnTimers dt g))
      (set_spawnTimer (spawnTimer (spawnTimers dt g)) g).
Proof. unfold spawnTimers. cbv zeta. destruct g; cbn. by repeat case_match. Qed.

Lemma laneStep_frame dt g :
  laneStep dt g =
    set_runnerLane (runnerLane (laneStep dt g))
      (set_laneX (laneX (laneStep dt g)) g).
Proof. unfold laneStep. cbv zeta. destruct g; cbn. by repeat case_match. Qed.

(** Everything [update] returns except the lanes is already there after the
    spawn phase. *)
Lemma update_after_spawn dt g r g' r' :
  update dt g r = Ok (g', r') →
  ∃ gs, spawnStep dt (moveCoins dt (moveObstacles dt (tick dt g))) r = (gs, r') ∧
        g' = set_runnerLane (runnerLane g')
               (set_laneX (laneX g') (set_targetLane (targetLane g') gs)).
Proof.
  unfold update. cbv zeta. destruct (spawnStep _ _ _) as [gs rs].
  intros Hrun. apply bind_Ok in Hrun as (gd & Hd & Hrun).
  apply autoDodge_frame in Hd. injection Hrun as <- <-.
  exists gs. split; [done|]. rewrite (laneStep_frame dt gd) at 1.
  assert (targetLane (laneStep dt gd) = targetLane gd) as ->
    by (rewrite laneStep_frame; by destruct gd).
  by rewrite Hd at 3.
Qed.

Lemma tick_obstacles dt os g :
  tick dt (set_obstacles os g) = set_obstacles os (tick dt g).
Proof. unfold tick. destruct g; cbn. by case_match. Qed.

Lemma moveCoins_obstacles dt os g :
  moveCoins dt (set_obstacles os g) = set_obstacles os (moveCoins dt g).
Proof. rewrite !moveCoins_unfold. by destruct g. Qed.

Lemma move_phase_obstacles dt g :
  ∃ os, moveCoins dt (moveObstacles dt (tick dt g)) =
          set_obstacles os (moveCoins dt (tick dt (set_obstacles [] g))).
Proof.
  unfold moveObstacles. rewrite moveCoins_obstacles. eexists.
  replace g with (set_obstacles (obstacles g) (set_obstacles [] g)) at 3
    by by destruct g.
  rewrite tick_obstacles, moveCoins_obstacles.
  by destruct (moveCoins dt (tick dt (set_obstacles [] g))).
Qed.

Lemma spawnTimers_obstacles dt os g :
  spawnTimers dt (set_obstacles os g) = set_obstacles os (spawnTimers dt g).
Proof.
  unfold spawnTimers. destruct g; cbn.
  repeat (case_match; cbn in * ); first [reflexivity | congruence].
Qed.

Lemma spawnObstacleLoop_rng os r :
  (spawnObstacleLoop os r).2 = r ∨ (spawnObstacleLoop os r).2 = adv r.
Proof.
  induction os as [|o os IH]; simpl; [by left|].
  destruct (negb (o_active o)).
  - by right.
  - destruct (spawnObstacleLoop os r); simpl in IH |- *; done.
Qed.

(** One tick, seen without the obstacle pool: the counters, the clock and
    the timers are those of the obstacle-free state; the coin pool is the
    moved one, with a trail added when the coin timer fires, in the lane the
    random source yields after at most one draw for an obstacle. *)
Lemma update_summary dt g r g' r' :
  update dt g r = Ok (g', r') →
  let M := moveCoins dt (tick dt (set_obstacles [] g)) in
  let T := spawnTimers dt M in
  (score g' = score T ∧ coins g' = coins T ∧ speed g' = speed T ∧
   elapsed g' = elapsed T ∧ scrollOff g' = scrollOff T ∧
   spawnTimer g' = spawnTimer T ∧ coinTimer g' = coinTimer T ∧
   width g' = width T ∧ height g' = height T) ∧
  ∃ r1, (r1 = r ∨ r1 = adv r) ∧
    if coinDue dt M
    then coinPool g' = trail (Intn numLanes r1).1 (coinPool M) ∧ r' = adv r1
    else coinPool g' = coinPool M ∧ r' = r1.
Proof.
  intros Hrun M T. apply update_after_spawn in Hrun as (gs & Hs & ->).
  destruct (move_phase_obstacles dt g) as [os HG]. fold M in HG.
  rewrite HG, spawnStep_unfold in Hs. cbv zeta in Hs.
  rewrite spawnTimers_obstacles in Hs. fold T in Hs.
  assert (obstacleDue dt (set_obstacles os M) = obstacleDue dt M) as Ho
    by by destruct M.
  assert (coinDue dt (set_obstacles os M) = coinDue dt M) as Hc
    by by destruct M.
  assert (coinPool (set_obstacles os M) = coinPool M) as Hp by by destruct M.
  assert (spawnObstacleLoop (obstacles (set_obstacles os M)) r
          = spawnObstacleLoop os r) as Hl by by destruct M.
  rewrite Ho, Hc, Hp, Hl in Hs. injection Hs as <- <-.
  split; [by destruct T|].
  exists (if obstacleDue dt M then spawnObstacleLoop os r else (os, r)).2.
  split.
  - destruct (obstacleDue dt M); [apply spawnObstacleLoop_rng | by left].
  - destruct (coinDue dt M); by destruct T.
Qed.

Lemma adv_cursor r : cursor (adv r) = S (cursor r).
Proof. done. Qed.

Lemma claimCoin_depths l l' j cs cs' :
  Forall2 (λ c c', c_z c = c_z c' ∧ c_active c = c_active c') cs cs' →
  Forall2 (λ c c', c_z c = c_z c' ∧ c_active c = c_active c')
    (claimCoin l j cs) (claimCoin l' j cs').
Proof.
  induction 1 as [|c c' cs cs' [Hz Ha] Hcs IH]; simpl; [constructor|].
  rewrite <- Ha. destruct (negb (c_active c)); by constructor.
Qed.

(** C10 (as amended).  Two states that differ only in the obstacle pool,
    advanced by the same [dt] with the same random source, end with the same
    score, coin count, speed, clock, scroll offset, spawn timers and
    viewport: an obstacle in the runner's lane costs nothing.  Their coin
    pools hold, slot by slot, the same depths and active flags, and are
    equal whenever the two runs leave the random source in the same state:
    the lane of a trail spawned in this tick is drawn after the obstacle
    spawn, which draws only when its pool has a free slot. *)
Theorem obstacles_do_not_affect_scoring
    (dt : F) (g1 g2 : game F) (r : rng) (g1' g2' : game F) (r1' r2' : rng) :
  g2 = set_obstacles (obstacles g2) g1 →
  update dt g1 r = Ok (g1', r1') →
  update dt g2 r = Ok (g2', r2') →
  score g1' = score g2' ∧ coins g1' = coins g2' ∧ speed g1' = speed g2' ∧
  elapsed g1' = elapsed g2' ∧ scrollOff g1' = scrollOff g2' ∧
  spawnTimer g1' = spawnTimer g2' ∧ coinTimer g1' = coinTimer g2' ∧
  width g1' = width g2' ∧ height g1' = height g2' ∧
  Forall2 (λ c c', c_z c = c_z c' ∧ c_active c = c_active c')
    (coinPool g1') (coinPool g2') ∧
  (r1' = r2' → coinPool g1' = coinPool g2').
Proof.
  intros Hdiff Hrun1 Hrun2.
  apply update_summary in Hrun1 as (Hv1 & ra & Hra & Hp1).
  apply update_summary in Hrun2 as (Hv2 & rb & Hrb & Hp2).
  assert (set_obstacles [] g2 = set_obstacles [] g1) as Heq
    by (rewrite Hdiff; by destruct g1).
  rewrite Heq in Hv2, Hp2.
  destruct Hv1 as (-> & -> & -> & -> & -> & -> & -> & -> & ->).
  destruct Hv2 as (-> & -> & -> & -> & -> & -> & -> & -> & ->).
  split_and!; try done.
  - destruct (coinDue dt _).
    + destruct Hp1 as [-> _], Hp2 as [-> _]. unfold trail.
      do 3 apply claimCoin_depths. by apply Forall_Forall2_diag, Forall_true.
    + destruct Hp1 as [-> _], Hp2 as [-> _].
      by apply Forall_Forall2_diag, Forall_true.
  - intros Hr. assert (ra = rb) as ->.
    { destruct (coinDue dt _).
      - destruct Hp1 as [_ ->], Hp2 as [_ ->].
        apply (f_equal cursor) in Hr as Hc. rewrite !adv_cursor in Hc.
        destruct Hra as [->| ->], Hrb as [->| ->]; try done;
          rewrite ?adv_cursor in Hc; lia.
      - destruct Hp1 as [_ ->], Hp2 as [_ ->]. done. }
    destruct (coinDue dt _); destruct Hp1 as [-> _], Hp2 as [-> _]; done.
Qed.

(** ** The compositor writes nothing but the frame *)

Lemma render_frame_only g g' out :
  render g = Ok (g', out) → g' = set_frame out g.
Proof.
  unfold render. cbv zeta. intros Hrun.
  apply bind_Ok in Hrun as (gl & Hloop & Hret). injection Hret as <- <-.
  eapply (for_loop_inv (λ s, s = set_frame (frame s) g)) in Hloop.
  - done.
  - by destruct g.
  - intros row t t' -> Hbody. cbv beta in Hbody.
    apply bind_Ok in Hbody as (line & _ & Hbody).
    case_match; injection Hbody as <-; by destruct g.
Qed.

(** C6. When [render] returns, the state it leaves is the one it was given
    with the rendered bytes in [frame]: viewport, speed, score, coin count,
    the three lane fields, scroll offset, clock, both timers and both pools
    are untouched. *)
Theorem render_leaves_the_state (g g' : game F) (out : list ascii) :
  render g = Ok (g', out) →
  width g' = width g ∧ height g' = height g ∧ speed g' = speed g ∧
  score g' = score g ∧ coins g' = coins g ∧ runnerLane g' = runnerLane g ∧
  targetLane g' = targetLane g ∧ laneX g' = laneX g ∧
  scrollOff g' = scrollOff g ∧ elapsed g' = elapsed g ∧
  spawnTimer g' = spawnTimer g ∧ coinTimer g' = coinTimer g ∧
  obstacles g' = obstacles g ∧ coinPool g' = coinPool g ∧ frame g' = out.
Proof. intros ->%render_frame_only. by destruct g. Qed.

(** ** Row buffers are never indexed out of range *)

Lemma guarded_bind {A B} allow (P : A → Prop) (Q : B → Prop) m k :
  guarded allow P m → (∀ a, P a → guarded allow Q (k a)) →
  guarded allow Q (m ≫= k).
Proof. destruct m; simpl; eauto. Qed.

Lemma guarded_bset allow w buf i c :
  sized w buf → 0 ≤ i < Z.of_nat w → guarded allow (sized w) (bset buf i c).
Proof.
  unfold sized, bset. intros Hw Hi.
  rewrite bool_decide_true by (rewrite Hw; lia). simpl.
  by rewrite length_insert.
Qed.

Lemma guarded_bget allow w buf i :
  sized w buf → 0 ≤ i < Z.of_nat w → guarded allow (λ _, True) (bget buf i).
Proof.
  unfold sized, bget. intros Hw Hi.
  rewrite bool_decide_true by (rewrite Hw; lia).
  destruct (lookup_lt_is_Some_2 buf (Z.to_nat i)) as [c ->]; [lia|done].
Qed.

Lemma guarded_iter_up {St} allow (P : St → Prop) body n : ∀ x s,
  P s → (∀ y t, x ≤ y < x + Z.of_nat n → P t → guarded allow P (body y t)) →
  guarded allow P (iter_up n x body s).
Proof.
  induction n as [|n IH]; intros x s Hs Hbody; simpl; [done|].
  eapply guarded_bind; [apply Hbody; [lia|done]|].
  intros t Ht. apply IH; [done|]. intros y u Hy. apply Hbody. lia.
Qed.

Lemma guarded_for_loop {St} allow (P : St → Prop) lo hi body s :
  P s → (∀ y t, lo ≤ y < hi → P t → guarded allow P (body y t)) →
  guarded allow P (for_loop lo hi body s).
Proof.
  intros Hs Hbody. apply guarded_iter_up; [done|].
  intros y t Hy. apply Hbody. lia.
Qed.

Lemma guarded_foldM {A St} allow (P : St → Prop) (f : St → A → result St) l :
  ∀ s, P s → (∀ x t, P t → guarded allow P (f t x)) →
       guarded allow P (foldM f l s).
Proof.
  induction l as [|x l IH]; intros s Hs Hf; simpl; [done|].
  eapply guarded_bind; [by apply Hf|]. intros t Ht. by apply IH.
Qed.

Lemma guarded_fill allow w c buf :
  sized w buf → guarded allow (sized w) (fill c buf).
Proof.
  intros Hw. unfold fill, len. apply guarded_for_loop; [done|].
  intros y t Hy Ht. apply guarded_bset; [done|]. rewrite Hw in Hy. lia.
Qed.

Lemma guarded_placeLoop allow w s : ∀ buf x i,
  sized w buf → guarded allow (sized w) (placeLoop buf x i s).
Proof.
  induction s as [|c s IH]; intros buf x i Hw; simpl; [done|].
  eapply guarded_bind; [|intros; by apply IH].
  unfold len. repeat case_bool_decide; simpl; try done.
  apply guarded_bset; [done|]. rewrite Hw in *. lia.
Qed.

Lemma guarded_placeStringBytes allow w buf x s :
  sized w buf → guarded allow (sized w) (placeStringBytes buf x s).
Proof. apply guarded_placeLoop. Qed.

Lemma idiv_half a : 0 ≤ a ≤ maxInt → idiv a 2 = a / 2.
Proof.
  intros Ha. unfold idiv. rewrite Z.quot_div_nonneg by lia.
  apply wrap64_id. unfold int_ok, minInt, maxInt in *.
  Z.div_mod_to_equations. lia.
Qed.

Section Rows.
Context (allow : fault → Prop) (g : game F).
Hypothesis width_ok : 1 ≤ width g ≤ maxInt.
Local Abbreviation w := (Z.to_nat (width g)).

Lemma drawSky_guarded buf row horizon :
  sized w buf → guarded allow (sized w) (drawSky g buf row horizon).
Proof.
  intros Hw. unfold drawSky, rem_checked, len. unfold sized in Hw.
  assert (Z.of_nat (length buf) = width g) as Hlen by (rewrite Hw; lia).
  eapply guarded_bind; [|intros b Hb; case_bool_decide; [by apply guarded_fill|done]].
  case_bool_decide; [|done].
  rewrite bool_decide_false by lia. simpl.
  eapply guarded_bind with (P := sized w).
  { repeat case_bool_decide; simpl; try done.
    apply guarded_bset; [done|]. lia. }
  intros b Hb. unfold sized in Hb. rewrite bool_decide_false by lia. simpl.
  repeat case_bool_decide; simpl; try done.
  apply guarded_bset; [done|]. rewrite Hb in *. lia.
Qed.

Lemma drawObstacle_guarded row horizon center buf obs :
  sized w buf →
  guarded allow (sized w) (drawObstacle g row horizon center buf obs).
Proof.
  intros Hw. unfold drawObstacle. cbv zeta.
  destruct (negb _ || _); [done|]. destruct (_ || _); [done|].
  destruct (_ && _); [|done]. case_bool_decide; [done|].
  apply guarded_for_loop; [done|]. intros x b Hx Hb.
  repeat case_bool_decide; try done; apply guarded_bset; try done; lia.
Qed.

Lemma drawCoin_guarded row horizon center buf cn :
  sized w buf →
  guarded allow (sized w) (drawCoin g row horizon center buf cn).
Proof.
  intros Hw. unfold drawCoin. cbv zeta.
  destruct (negb _ || _); [done|]. destruct (_ || _); [done|].
  case_bool_decide; [|done]. case_bool_decide; [done|].
  repeat case_bool_decide; try done. apply guarded_bset; [done|lia].
Qed.

Lemma drawRunner_guarded row horizon center buf :
  allow ArrIndex ∨ 0 ≤ to_int (elapsed g ⊗ of_int 8) →
  sized w buf →
  guarded allow (sized w) (drawRunner g row horizon center buf).
Proof.
  intros Hframe Hw. unfold drawRunner. cbv zeta.
  case_bool_decide.
  { repeat case_bool_decide; simpl; try done. apply guarded_bset; [done|lia]. }
  case_bool_decide; [by apply guarded_placeStringBytes|].
  case_bool_decide; [|done].
  eapply guarded_bind with (P := λ _, True);
    [|intros; by apply guarded_placeStringBytes].
  unfold arr_get, irem. case_bool_decide as Hi; simpl.
  - destruct (lookup_lt_is_Some_2 legs (Z.to_nat (Z.rem (to_int (elapsed g ⊗ of_int 8)) 4)))
      as [l ->]; [unfold legs in *; simpl in *; lia|done].
  - destruct Hframe as [?|Hpos]; [done|]. exfalso. apply Hi.
    pose proof (Z.rem_bound_pos (to_int (elapsed g ⊗ of_int 8)) 4 Hpos).
    unfold legs; simpl. lia.
Qed.

Lemma drawGround_guarded buf row horizon trackLeft :
  allow ArrIndex ∨ 0 ≤ to_int (elapsed g ⊗ of_int 8) →
  sized w buf →
  guarded allow (sized w) (drawGround g buf row horizon trackLeft).
Proof.
  intros Hframe Hw. unfold drawGround. cbv zeta.
  destruct (_ ≼ _); [done|].
  set (tw0 := to_int (of_int trackWidth ⊗ _)).
  assert (int_ok tw0) as Htw0 by apply to_int_range.
  set (tw := if bool_decide (tw0 < 3) then 3 else tw0).
  assert (3 ≤ tw ≤ maxInt) as Htw
    by (subst tw; unfold int_ok, maxInt in *; case_bool_decide; lia).
  clearbody tw. clear Htw0. clearbody tw0.
  set (center := idiv (width g) 2).
  set (half := idiv tw 2).
  set (left0 := isub center half).
  set (right0 := iadd center half).
  assert (0 ≤ center < 2 ^ 62 ∧ 1 ≤ half < 2 ^ 62) as [Hc Hh].
  { subst center half. rewrite !idiv_half by lia.
    unfold maxInt in *. Z.div_mod_to_equations. lia. }
  assert (left0 = center - half ∧ right0 = center + half) as [Hl0 Hr0].
  { subst left0 right0. unfold isub, iadd.
    split; apply wrap64_id; unfold int_ok, minInt, maxInt; lia. }
  clearbody left0 right0 center half.
  set (left := if bool_decide (left0 < 0) then 0 else left0).
  set (right := if bool_decide (width g ≤ right0) then _ else right0).
  assert (0 ≤ left ≤ 2 ^ 62) as Hleft by (subst left; case_bool_decide; lia).
  assert (right ≤ width g - 1) as Hright.
  { subst right. case_bool_decide; [|lia]. unfold isub.
    rewrite wrap64_id by (unfold int_ok, minInt, maxInt in *; lia). lia. }
  clearbody left right.
  assert (Z.of_nat w = width g) as Hwz by lia.
  (* ground texture *)
  eapply guarded_bind with (P := sized w).
  { apply guarded_for_loop; [done|]. intros y t Hy Ht. unfold len in Hy.
    case_bool_decide; [|done]. apply guarded_bset; [done|].
    rewrite Hw in Hy. lia. }
  (* track surface *)
  intros b1 Hb1. eapply guarded_bind with (P := sized w).
  { apply guarded_for_loop; [done|]. intros x t Hx Ht.
    apply guarded_bset; [done|lia]. }
  (* rails *)
  intros b2 Hb2. eapply guarded_bind with (P := sized w).
  { repeat case_bool_decide; simpl; try done. apply guarded_bset; [done|lia]. }
  intros b3 Hb3. eapply guarded_bind with (P := sized w).
  { repeat case_bool_decide; simpl; try done. apply guarded_bset; [done|lia]. }
  (* lane dividers *)
  intros b4 Hb4. eapply guarded_bind with (P := sized w).
  { apply guarded_for_loop; [done|]. intros l t Hl Ht.
    repeat case_bool_decide; simpl; try done. apply guarded_bset; [done|lia]. }
  (* cross-ties *)
  intros b5 Hb5. eapply guarded_bind with (P := sized w).
  { case_bool_decide; [|done]. unfold iadd.
    rewrite wrap64_id by (unfold int_ok, minInt, maxInt; lia).
    apply guarded_for_loop; [done|]. intros x t Hx Ht.
    eapply guarded_bind; [apply (guarded_bget allow w); [done|lia]|].
    intros c _. case_match; [|done]. apply guarded_bset; [done|lia]. }
  (* entities and runner *)
  intros b6 Hb6. eapply guarded_bind with (P := sized w).
  { apply guarded_foldM; [done|]. intros o t Ht. by apply drawObstacle_guarded. }
  intros b7 Hb7. eapply guarded_bind with (P := sized w).
  { apply guarded_foldM; [done|]. intros c t Ht. by apply drawCoin_guarded. }
  intros b8 Hb8. by apply drawRunner_guarded.
Qed.

Lemma renderRow_guarded row horizon trackLeft :
  allow ArrIndex ∨ 0 ≤ to_int (elapsed g ⊗ of_int 8) →
  guarded allow (sized w) (renderRow g row horizon trackLeft).
Proof.
  intros Hframe. unfold renderRow, make_buf.
  rewrite (bool_decide_false (width g < 0)) by lia. simpl.
  eapply guarded_bind with (P := sized w).
  { apply guarded_fill. unfold sized. by rewrite length_replicate. }
  intros b1 Hb1. eapply guarded_bind with (P := sized w).
  { case_bool_decide; [by apply drawSky_guarded|by apply drawGround_guarded]. }
  intros b2 Hb2. eapply guarded_bind with (P := sized w).
  { case_bool_decide; [by apply guarded_placeStringBytes|done]. }
  intros b3 Hb3. case_bool_decide; [by apply guarded_placeStringBytes|done].
Qed.

End Rows.

Lemma render_guarded allow g :
  1 ≤ width g ≤ maxInt →
  allow ArrIndex ∨ 0 ≤ to_int (elapsed g ⊗ of_int 8) →
  guarded allow (λ _, True) (render g).
Proof.
  intros Hw Hframe. unfold render. cbv zeta.
  eapply guarded_bind with (P := λ s, s = set_frame (frame s) g);
    [|done].
  apply guarded_for_loop; [by destruct g|].
  intros row t Hrow ->.
  eapply guarded_bind with (P := λ _, True).
  - set (t' := set_frame (frame t) g).
    assert (width t' = width g ∧ elapsed t' = elapsed g) as [Hw' He']
      by by destruct g.
    pose proof (renderRow_guarded allow t') as Hrr.
    rewrite Hw', He' in Hrr. specialize (Hrr Hw row).
    match goal with |- guarded _ _ (renderRow _ _ ?h ?l) =>
      specialize (Hrr h l Hframe); by destruct (renderRow t' row h l) end.
  - intros line _. case_bool_decide; simpl; by destruct g.
Qed.

(** C5. For a viewport of at least one column and one row, [render] never
    panics with an index out of range on a row buffer, whatever the entity
    positions, [laneX], the scroll offset, the size of the viewport and the
    length of the HUD text: every unguarded write falls inside the clamped
    track, every other write is behind a bounds test.  The only panic left
    is the index into the walk-cycle table when [int(elapsed*8)] is
    negative; otherwise [render] returns a frame. *)
Theorem render_never_writes_outside_the_row (g : game F) :
  1 ≤ width g → 1 ≤ height g → int_ok (width g) → int_ok (height g) →
  render g ≠ Panic BufIndex ∧
  (0 ≤ to_int (elapsed g ⊗ of_int 8) → ∃ g' out, render g = Ok (g', out)).
Proof.
  intros Hw Hh [_ Hwmax] _. split.
  - pose proof (render_guarded (λ f, f ≠ BufIndex) g) as Hg.
    intros Hrun. rewrite Hrun in Hg. simpl in Hg.
    apply Hg; [lia| by left |done].
  - intros Hpos. pose proof (render_guarded (λ _, False) g) as Hg.
    destruct (render g) as [[g' out]|f]; [eauto|].
    exfalso. apply Hg; [lia | by right].
Qed.

(** ** Which entities the compositor draws, and where *)

Lemma iter_up_paint c body n : ∀ x buf,
  (∀ y b, body y b = if bool_decide (0 ≤ y) then bset b y c else Ok b) →
  (n ≠ 0%nat → x + Z.of_nat n ≤ len buf) →
  ∃ b', iter_up n x body buf = Ok b' ∧ length b' = length buf ∧
        ∀ i : nat, (i < length buf)%nat →
          b' !! i = if bool_decide (x ≤ Z.of_nat i < x + Z.of_nat n)
                    then Some c else buf !! i.
Proof.
  induction n as [|n IH]; intros x buf Hbody Hhi; simpl.
  - exists buf. split_and!; [done..|]. intros i _.
    by rewrite bool_decide_false by lia.
  - specialize (Hhi ltac:(done)).
    rewrite Hbody. unfold bset, len in *. case_bool_decide as Hx.
    + rewrite bool_decide_true by lia. simpl.
      destruct (IH (x + 1) (<[Z.to_nat x:=c]> buf) Hbody) as (b' & -> & Hl & Hb').
      { rewrite length_insert. lia. }
      rewrite length_insert in Hl, Hb'.
      exists b'. split_and!; [done..|]. intros i Hi. rewrite (Hb' i Hi).
      destruct (decide (i = Z.to_nat x)) as [->|Hne].
      * rewrite list_lookup_insert_eq by lia.
        repeat case_bool_decide; (done || lia).
      * rewrite list_lookup_insert_ne by done.
        repeat case_bool_decide; (done || lia).
    + simpl.
      destruct (IH (x + 1) buf Hbody) as (b' & -> & Hl & Hb'); [lia|].
      exists b'. split_and!; [done..|]. intros i Hi. rewrite (Hb' i Hi).
      repeat case_bool_decide; (done || lia).
Qed.





(** ** Runs of the engine *)

Lemma run_cons dt dts g r :
  run (dt :: dts) g r = '(g', r') ← update dt g r; run dts g' r'.
Proof. done. Qed.

(** An invariant of the ticks of a run is an invariant of the run. *)
Lemma run_invariant (D : F → Prop) (P : game F → Prop) dts : ∀ g r g' r',
  (∀ dt g r g' r', D dt → P g → update dt g r = Ok (g', r') → P g') →
  Forall D dts → P g → run dts g r = Ok (g', r') → P g'.
Proof.
  induction dts as [|dt dts IH]; intros g r g' r' Hstep Hdts Hg Hrun.
  - by simplify_eq/=.
  - inversion_clear Hdts as [|?? Hdt Hdts'].
    rewrite run_cons in Hrun.
    apply bind_Ok in Hrun as ([g1 r1] & Hupd & Hrun). eauto.
Qed.

Lemma run_snoc dts dt : ∀ g r,
  run (dts ++ [dt]) g r = '(g', r') ← run dts g r; update dt g' r'.
Proof.
  induction dts as [|d dts IH]; intros g r; simpl.
  - by destruct (update dt g r) as [[??]|].
  - destruct (update d g r) as [[g' r']|]; simpl; [apply IH|done].
Qed.

Lemma spawnObstacleLoop_lanes os r :
  Forall (λ o, 0 ≤ o_lane o < numLanes) os →
  Forall (λ o, 0 ≤ o_lane o < numLanes) (spawnObstacleLoop os r).1.
Proof.
  induction 1 as [|o os Ho Hos IH]; simpl; [constructor|].
  destruct (negb (o_active o)); simpl.
  - constructor; [|done]. simpl. by apply Z.mod_pos_bound.
  - destruct (spawnObstacleLoop os r); simpl in *. by constructor.
Qed.


(** The pools and the target lane as the dodge pass finds them. *)
Lemma update_before_dodge dt g r :
  let G := moveCoins dt (moveObstacles dt (tick dt g)) in
  obstacles G = map (moveObstacle (speed (tick dt g)) dt) (obstacles g) ∧
  targetLane G = targetLane g ∧
  ∀ gs r', spawnStep dt G r = (gs, r') →
    targetLane gs = targetLane g ∧
    obstacles gs = (if obstacleDue dt G then spawnObstacleLoop (obstacles G) r
                    else (obstacles G, r)).1.
Proof.
  cbv zeta. rewrite moveCoins_unfold. unfold moveObstacles.
  destruct (tick_frame dt g) as (_ & Ho & _ & _ & Ht & _).
  revert Ho Ht. generalize (tick dt g). intros T Ho Ht.
  split_and!.
  - rewrite <- Ho. by destruct T.
  - rewrite <- Ht. by destruct T.
  - intros gs r'. rewrite spawnStep_unfold. cbv zeta. intros [= <- _].
    rewrite (spawnTimers_frame dt). split.
    + rewrite <- Ht. by destruct T.
    + by destruct T.
Qed.

Lemma update_total dt g r :
  lanes_ok g → ∃ g' r', update dt g r = Ok (g', r') ∧ lanes_ok g'.
Proof.
  intros [Hcur Hos].
  destruct (update_before_dodge dt g r) as (HoG & HtG & Hspawn).
  unfold update. cbv zeta.
  destruct (spawnStep dt _ r) as [gs rs] eqn:Hs.
  destruct (Hspawn gs rs eq_refl) as [Hts Hos'].
  assert (lanes_ok gs) as Hgs.
  { split; [by rewrite Hts|]. rewrite Hos', HoG.
    assert (Forall (λ o, 0 ≤ o_lane o < numLanes)
              (map (moveObstacle (speed (tick dt g)) dt) (obstacles g))).
    { apply Forall_fmap. revert Hos. apply Forall_impl. intros o Ho. simpl.
      unfold moveObstacle. by repeat case_match. }
    destruct (obstacleDue _ _); [by apply spawnObstacleLoop_lanes|done]. }
  destruct (autoDodge_total gs Hgs) as [gd Hd]. rewrite Hd. simpl.
  eexists _, _. split; [done|].
  apply autoDodge_sound in Hd as (Hframe & Hmove & _).
  rewrite laneStep_frame.
  assert (lanes_ok gd) as [Hcd Hod].
  { destruct Hgs as [Hcs Hoss]. split.
    - destruct (decide (targetLane gd = targetLane gs)) as [->|Hne]; [done|].
      by apply Hmove.
    - rewrite Hframe. by destruct gs. }
  split; by destruct gd.
Qed.

Lemma run_total dts : ∀ g r,
  lanes_ok g → ∃ g' r', run dts g r = Ok (g', r') ∧ lanes_ok g'.
Proof.
  induction dts as [|dt dts IH]; intros g r Hg; simpl; [eauto|].
  destruct (update_total dt g r Hg) as (g1 & r1 & -> & Hg1). simpl. eauto.
Qed.

Lemma newGame_lanes_ok w h : lanes_ok (newGame w h).
Proof.
  split; [done|]. unfold newGame; cbn [obstacles].
  apply Forall_replicate. done.
Qed.


Lemma tick_clock dt g :
  elapsed (tick dt g) = elapsed g ⊕ dt ∧
  speed (tick dt g) = rampSpeed (elapsed g ⊕ dt).
Proof. unfold tick, rampSpeed. cbv zeta. destruct g; cbn. by case_match. Qed.


(** The two pools after one tick: every slot moved by its loop, then the
    spawns of this tick, if any. *)
Lemma update_pools dt g r g' r' :
  update dt g r = Ok (g', r') →
  let sp := rampSpeed (elapsed g ⊕ dt) in
  (∃ r1, obstacles g' = map (moveObstacle sp dt) (obstacles g) ∨
         obstacles g' =
           (spawnObstacleLoop (map (moveObstacle sp dt) (obstacles g)) r1).1) ∧
  (coinPool g' = map (moveCoin sp dt (runnerLane g)) (coinPool g) ∨
   ∃ lane, coinPool g' =
             trail lane (map (moveCoin sp dt (runnerLane g)) (coinPool g))).
Proof.
  intros Hrun. cbv zeta. destruct (tick_clock dt g) as [_ <-]. split.
  - apply update_after_spawn in Hrun as (gs & Hs & ->).
    destruct (update_before_dodge dt g r) as (HoG & _ & Hspawn).
    destruct (Hspawn gs r' Hs) as [_ Hos]. rewrite HoG in Hos.
    exists r. destruct (obstacleDue _ _); [right|left]; by destruct gs.
  - apply update_summary in Hrun as (_ & r1 & _ & Hp). cbv zeta in Hp.
    assert (coinPool (moveCoins dt (tick dt (set_obstacles [] g)))
            = map (moveCoin (speed (tick dt g)) dt (runnerLane g)) (coinPool g))
      as Hm.
    { rewrite moveCoins_unfold, tick_obstacles.
      destruct (tick_frame dt g) as (<- & _ & _ & <- & _).
      by destruct (tick dt g). }
    rewrite Hm in Hp. destruct (coinDue _ _); destruct Hp as [-> _]; eauto.
Qed.

End Generic.

(** * The numeric laws, over exact rationals *)

Module ExactLaws.
Import Exact.
Import Invariants.
Local Open Scope fl_scope.
Local Open Scope Q_scope.














(** *** Depths of the pool entries *)













(** *** The one-obstacle scenario *)


(** *** The scenarios, on exact rationals *)




End ExactLaws.

(** * The scenarios, on IEEE 754 binary64 *)

Module OnFloats.
Import IEEE.
Local Open Scope fl_scope.

(** C1, witness: the runner is in lane 0 and a coin in lane 0 at depth 1.0
    moves to depth 0.699875 in a tick of 0.05: it is collected, once. *)
Lemma coin_collected_once_witness :
  ∃ g' r',
    update (dec 5 100) oneCoin r0 = Ok (g', r') ∧
    coins g' = 1 ∧ score g' = 53 ∧
    c_active <$> coinPool g' !! 0%nat = Some false.
Proof.
  pose proof (coin_collected_once (dec 5 100) oneCoin r0) as H.
  cbv zeta in H. destruct H as (_ & _ & _ & _ & Hone & Hend).
  destruct (update (dec 5 100) oneCoin r0) as [[g' r']|f] eqn:Hrun;
    [|vm_compute in Hrun; discriminate].
  exists g', r'. split; [reflexivity|].
  destruct (Hend g' r' eq_refl) as [-> ->].
  destruct Hone as [-> ->]; [vm_compute; reflexivity|].
  vm_compute in Hrun. injection Hrun as <- _.
  vm_compute. repeat split.
Defined.


(** C3, witness: with an obstacle ahead in the target lane only, the dodge
    moves to a lane that is not dangerous; with one ahead in every lane, and
    with none at all, it leaves the state alone. *)
Lemma autoDodge_moves_only_off_a_dangerous_lane_witness :
  (∃ g', autoDodge ahead = Ok g' ∧ targetLane g' = 0 ∧
         laneDanger (obstacles ahead) 1 = true ∧
         laneDanger (obstacles ahead) 0 = false) ∧
  autoDodge blocked = Ok blocked ∧
  autoDodge (newGame 80 24) = Ok (newGame 80 24).
Proof.
  split_and!.
  - destruct (autoDodge_moves_only_off_a_dangerous_lane ahead)
      as [Htot Hsound].
    destruct Htot as [g' Hg'].
    { unfold lanes_ok. apply (bool_decide_unpack _). vm_compute. exact I. }
    exists g'. split; [exact Hg'|].
    destruct (Hsound g' Hg') as (_ & Hmove & _).
    assert (targetLane g' = 0) as Ht.
    { vm_compute in Hg'. injection Hg' as <-. reflexivity. }
    split; [exact Ht|]. rewrite Ht in Hmove.
    destruct Hmove as (Hd & _ & Hs); [vm_compute; discriminate|].
    split; [exact Hd | exact Hs].
  - destruct (autoDodge_moves_only_off_a_dangerous_lane blocked)
      as [Htot Hsound].
    destruct Htot as [g' Hg'].
    { unfold lanes_ok. apply (bool_decide_unpack _). vm_compute. exact I. }
    destruct (Hsound g' Hg') as (_ & _ & _ & Hall).
    rewrite Hg'. f_equal. apply Hall.
    intros l Hl. unfold numLanes in Hl.
    assert (l = 0 ∨ l = 1 ∨ l = 2) as [-> | [-> | ->]] by lia;
      vm_compute; reflexivity.
  - destruct (autoDodge_moves_only_off_a_dangerous_lane (newGame 80 24))
      as [Htot Hsound].
    destruct Htot as [g' Hg'].
    { unfold lanes_ok. apply (bool_decide_unpack _). vm_compute. exact I. }
    destruct (Hsound g' Hg') as (_ & _ & Hsafe & _).
    rewrite Hg'. f_equal. apply Hsafe. vm_compute. reflexivity.
Defined.

(** C5, witness: a frame of the 80 x 24 viewport with three obstacles. *)
Lemma render_never_writes_outside_the_row_witness :
  render blocked ≠ Panic BufIndex ∧ ∃ g' out, render blocked = Ok (g', out).
Proof.
  destruct (render_never_writes_outside_the_row blocked) as [Hsafe Hret].
  - vm_compute. discriminate.
  - vm_compute. discriminate.
  - vm_compute. split; discriminate.
  - vm_compute. split; discriminate.
  - split; [exact Hsafe|]. apply Hret. vm_compute. discriminate.
Defined.

(** C6, witness: the same frame leaves the pools and the counters alone. *)
Lemma render_leaves_the_state_witness :
  ∃ g' out,
    render blocked = Ok (g', out) ∧
    obstacles g' = obstacles blocked ∧ coinPool g' = coinPool blocked ∧
    score g' = 0 ∧ targetLane g' = 1 ∧ frame g' = out.
Proof.
  pose proof (render_guarded (λ _, False) blocked) as Hg.
  destruct (render blocked) as [[g' out]|f] eqn:Hrun.
  - exists g', out. split; [reflexivity|].
    destruct (render_leaves_the_state blocked g' out Hrun)
      as (_ & _ & _ & Hs & _ & _ & Ht & _ & _ & _ & _ & _ & Ho & Hc & Hf).
    rewrite Hs, Ht. auto.
  - exfalso. apply Hg; [|right]; vm_compute; [split|]; discriminate.
Defined.




(** C9, witness: both pools full. *)
Lemma spawn_into_full_pool_is_noop_witness :
  spawnObstacle crowded r0 = (crowded, r0) ∧
  spawnCoin crowded r0 = (crowded, adv r0).
Proof.
  destruct (spawn_into_full_pool_is_noop crowded r0) as [Ho Hc].
  split; [apply Ho|apply Hc];
    apply (bool_decide_unpack _); vm_compute; exact I.
Defined.

(** C10, witness: an obstacle one unit ahead in the runner's lane, against
    no obstacle at all. *)
Lemma obstacles_do_not_affect_scoring_witness :
  ∃ g1' r1' g2' r2',
    update (dec 5 100) collision r0 = Ok (g1', r1') ∧
    update (dec 5 100) (newGame 80 24) r0 = Ok (g2', r2') ∧
    score g1' = score g2' ∧ coins g1' = coins g2' ∧ speed g1' = speed g2' ∧
    elapsed g1' = elapsed g2' ∧ scrollOff g1' = scrollOff g2' ∧
    Forall2 (λ c c', c_z c = c_z c' ∧ c_active c = c_active c')
      (coinPool g1') (coinPool g2') ∧
    targetLane g1' = 0 ∧ targetLane g2' = 1.
Proof.
  destruct (update (dec 5 100) collision r0) as [[g1' r1']|f] eqn:H1;
    [|vm_compute in H1; discriminate].
  destruct (update (dec 5 100) (newGame 80 24) r0) as [[g2' r2']|f] eqn:H2;
    [|vm_compute in H2; discriminate].
  exists g1', r1', g2', r2'. split; [reflexivity|]. split; [reflexivity|].
  destruct (obstacles_do_not_affect_scoring (dec 5 100) collision
              (newGame 80 24) r0 g1' g2' r1' r2' eq_refl H1 H2)
    as (Hs & Hc & Hsp & He & Hsc & _ & _ & _ & _ & Hp & _).
  split_and!; try assumption.
  - vm_compute in H1. injection H1 as <- _. reflexivity.
  - vm_compute in H2. injection H2 as <- _. reflexivity.
Defined.

(** C10, counterexample: two states that differ in the obstacle pool only,
    both spawn timers due.  With a free obstacle slot the obstacle takes the
    first random lane and the coins the second; with the obstacle pool full
    the coins take the first. *)
Lemma full_obstacle_pool_changes_the_coin_lane :
  ∃ g1' r1' g2' r2',
    update (dec 1 16) (due (newGame 80 24)) r0 = Ok (g1', r1') ∧
    update (dec 1 16)
      (set_obstacles (obstacles crowded) (due (newGame 80 24))) r0
      = Ok (g2', r2') ∧
    coinPool g1' !! 0%nat = Some (CoinObj 1 (of_int 19) true) ∧
    coinPool g2' !! 0%nat = Some (CoinObj 0 (of_int 19) true).
Proof.
  destruct (update _ (due _) r0) as [[g1' r1']|f] eqn:H1;
    [|vm_compute in H1; discriminate].
  destruct (update _ (set_obstacles _ _) r0) as [[g2' r2']|f] eqn:H2;
    [|vm_compute in H2; discriminate].
  exists g1', r1', g2', r2'. split; [reflexivity|]. split; [reflexivity|].
  vm_compute in H1, H2. injection H1 as <- _. injection H2 as <- _.
  vm_compute. split; reflexivity.
Defined.

End OnFloats.

(** * More properties, for every implementation of float64 *)

Section MoreGeneric.
Context {FM : Float64}.
Local Open Scope fl_scope.

(** ** Strings placed on a row buffer *)

Lemma bset_lookup buf i c b' :
  bset buf i c = Ok b' → b' = <[Z.to_nat i := c]> buf ∧ 0 ≤ i < len buf.
Proof. unfold bset, len. case_bool_decide; [|done]. by intros [= <-]. Qed.

Lemma placeLoop_spec x s : ∀ buf i0,
  0 ≤ i0 → minInt ≤ x + i0 → x + i0 + len s ≤ maxInt + 1 →
  ∃ b', placeLoop buf x i0 s = Ok b' ∧ length b' = length buf ∧
        ∀ i : nat, (i < length buf)%nat →
          b' !! i = if bool_decide (x + i0 ≤ Z.of_nat i < x + i0 + len s)
                    then s !! Z.to_nat (Z.of_nat i - (x + i0)) else buf !! i.
Proof.
  induction s as [|c s IH]; intros buf i0 Hi0 Hlo Hhi; simpl.
  - exists buf. split_and!; [done..|]. intros i Hi. unfold len. simpl.
    by rewrite bool_decide_false by lia.
  - unfold len in Hhi. simpl in Hhi.
    unfold iadd. rewrite wrap64_id by (unfold int_ok; lia).
    set (step := if _ && _ then _ else _).
    assert (∃ b1, step = Ok b1 ∧ length b1 = length buf ∧
              ∀ i : nat, (i < length buf)%nat →
                b1 !! i = if bool_decide (Z.of_nat i = x + i0)
                          then Some c else buf !! i) as (b1 & -> & Hlen1 & Hb1).
    { subst step. unfold bset, len. repeat case_bool_decide; simpl; try lia.
      - eexists. split_and!; [done|by rewrite length_insert|].
        intros i Hi. case_bool_decide.
        + replace (Z.to_nat (x + i0)) with i by lia.
          by rewrite list_lookup_insert_eq by lia.
        + by rewrite list_lookup_insert_ne by lia.
      - exists buf. split_and!; [done..|]. intros i Hi.
        by rewrite bool_decide_false by lia.
      - exists buf. split_and!; [done..|]. intros i Hi.
        by rewrite bool_decide_false by lia. }
    simpl.
    destruct (IH b1 (i0 + 1)) as (b' & Hrun & Hlen & Hb'); [unfold len; lia..|].
    exists b'. split_and!; [done|congruence|].
    intros i Hi. rewrite Hb' by lia. rewrite Hb1 by lia. unfold len. simpl.
    repeat case_bool_decide; try lia; try done.
    + replace (Z.to_nat (Z.of_nat i - (x + i0))) with
        (S (Z.to_nat (Z.of_nat i - (x + (i0 + 1))))) by lia. done.
    + replace (Z.to_nat (Z.of_nat i - (x + i0))) with 0%nat by lia. done.
Qed.

Lemma placeStringBytes_spec (buf s : list ascii) (x : Z) :
  minInt ≤ x → x + len s ≤ maxInt + 1 →
  ∃ b', placeStringBytes buf x s = Ok b' ∧ length b' = length buf ∧
        ∀ i : nat, (i < length buf)%nat →
          b' !! i = if bool_decide (x ≤ Z.of_nat i < x + len s)
                    then s !! Z.to_nat (Z.of_nat i - x) else buf !! i.
Proof.
  intros Hlo Hhi. unfold placeStringBytes.
  destruct (placeLoop_spec x s buf 0) as (b' & Hrun & Hlen & Hb'); [lia..|].
  exists b'. split_and!; [done..|]. intros i Hi. rewrite Hb' by done.
  by rewrite !Z.add_0_r.
Qed.

(** X1. [placeStringBytes] writes the bytes of [s] that fall inside the
    buffer and drops the others: the buffer keeps its length, position [i]
    holds [s[i-x]] when [x <= i < x + len(s)], and its old byte otherwise.
    It never panics.  ([x + len(s)] is taken within the range of [int].) *)
Theorem placeStringBytes_clips (buf s : list ascii) (x : Z) :
  minInt ≤ x → x + len s ≤ maxInt + 1 →
  ∃ b', placeStringBytes buf x s = Ok b' ∧ length b' = length buf ∧
        ∀ i : nat, (i < length buf)%nat →
          b' !! i = if bool_decide (x ≤ Z.of_nat i < x + len s)
                    then s !! Z.to_nat (Z.of_nat i - x) else buf !! i.
Proof. apply placeStringBytes_spec. Qed.

(** ** Degenerate viewports *)

Lemma for_loop_first_panics {St} lo hi (body : Z → St → result St) s f :
  lo < hi → body lo s = Panic f → for_loop lo hi body s = Panic f.
Proof.
  intros Hlt Hb. unfold for_loop.
  destruct (Z.to_nat (hi - lo)) as [|n] eqn:Hn; [lia|].
  simpl. by rewrite Hb.
Qed.

Lemma set_frame_viewport f (g : game F) :
  width (set_frame f g) = width g ∧ height (set_frame f g) = height g.
Proof. by destruct g. Qed.

Lemma drawSky_no_columns (g : game F) row horizon :
  irem row 3 = 0 → drawSky g [] row horizon = Panic DivByZero.
Proof.
  intros Hrow. unfold drawSky. by rewrite (bool_decide_true (irem row 3 = 0)).
Qed.

Lemma renderRow_zero_width (g : game F) horizon trackLeft :
  width g = 0 → 0 < horizon →
  renderRow g 0 horizon trackLeft = Panic DivByZero.
Proof.
  intros Hw Hh. unfold renderRow, make_buf. rewrite Hw.
  rewrite (bool_decide_false (0 < 0)) by lia.
  change (Ok (replicate (Z.to_nat 0) zero) ≫= ?k) with (k []).
  cbv beta. change (fill " " []) with (Ok (@nil ascii)).
  change (Ok [] ≫= ?k) with (k []). cbv beta.
  rewrite (bool_decide_true (0 < horizon)) by done.
  by rewrite drawSky_no_columns.
Qed.

(** X4. What [render] does when the viewport has no rows or no columns.
    With [height <= 0] the frame is the cursor-home sequence alone.  With a
    negative width and at least one row, [make] panics.  With width 0 and at
    least three rows, row 0 is a sky row with stars and the star column
    [(row*17 + 11) % len(buf)] divides by zero. *)
Theorem render_on_degenerate_viewports (g : game F) :
  (height g ≤ 0 → render g = Ok (set_frame cursorHome g, cursorHome)) ∧
  (width g < 0 → 1 ≤ height g → render g = Panic BadLen) ∧
  (width g = 0 → 3 ≤ height g ≤ maxInt → render g = Panic DivByZero).
Proof.
  split_and!.
  - intros Hh. unfold render, for_loop. cbv zeta.
    replace (Z.to_nat (height (set_frame _ (set_frame [] g)) - 0)) with 0%nat
      by (destruct g; simpl in *; lia).
    by destruct g.
  - intros Hw Hh. unfold render. cbv zeta.
    rewrite (for_loop_first_panics _ _ _ _ BadLen); [done| |].
    { rewrite !(proj2 (set_frame_viewport _ _)). lia. }
    unfold renderRow, make_buf. rewrite !(proj1 (set_frame_viewport _ _)).
    by rewrite (bool_decide_true (width g < 0)) by lia.
  - intros Hw Hh. unfold render. cbv zeta.
    rewrite (for_loop_first_panics _ _ _ _ DivByZero); [done| |].
    { rewrite !(proj2 (set_frame_viewport _ _)). lia. }
    rewrite renderRow_zero_width; [done| |].
    { by rewrite !(proj1 (set_frame_viewport _ _)). }
    rewrite !(proj2 (set_frame_viewport _ _)).
    unfold idiv. rewrite Z.quot_div_nonneg by lia.
    rewrite wrap64_id by (unfold int_ok, minInt, maxInt in *;
                          Z.div_mod_to_equations; lia).
    Z.div_mod_to_equations; lia.
Qed.

(** ** The layout of a frame *)

Lemma renderRow_frame f (g : game F) row horizon trackLeft :
  renderRow (set_frame f g) row horizon trackLeft
  = renderRow g row horizon trackLeft.
Proof. by destruct g. Qed.

Lemma set_frame_set_frame f f' (g : game F) :
  set_frame f (set_frame f' g) = set_frame f g.
Proof. by destruct g. Qed.

Lemma frame_set_frame f (g : game F) : frame (set_frame f g) = f.
Proof. by destruct g. Qed.

Lemma iter_up_S {St} n x (body : Z → St → result St) s :
  iter_up (S n) x body s = s' ← body x s; iter_up n (x + 1) body s'.
Proof. done. Qed.

Lemma render_rows (g : game F) horizon trackLeft n : ∀ x f s',
  0 ≤ x → x + Z.of_nat n = height g → height g ≤ maxInt →
  iter_up n x
    (λ row t,
       line ← renderRow t row horizon trackLeft;
       let t := set_frame (frame t ++ line) t in
       if bool_decide (row < isub (height t) 1)
       then Ok (set_frame (frame t ++ crlf) t) else Ok t) (set_frame f g)
  = Ok s' →
  ∃ rows, length rows = n ∧
    (∀ (k : nat) l, rows !! k = Some l →
       renderRow g (x + Z.of_nat k) horizon trackLeft = Ok l) ∧
    s' = set_frame (f ++ joinRows rows) g.
Proof.
  induction n as [|n IH]; intros x f s' Hx Hn Hh Hrun.
  - injection Hrun as <-. exists []. simpl. by rewrite app_nil_r.
  - rewrite iter_up_S in Hrun. apply bind_Ok in Hrun as (s1 & Hbody & Hrest).
    apply bind_Ok in Hbody as (line & Hline & Hs1). cbv zeta in Hs1.
    rewrite renderRow_frame in Hline.
    rewrite !set_frame_set_frame, !frame_set_frame in Hs1.
    rewrite (proj2 (set_frame_viewport _ _)) in Hs1.
    assert (isub (height g) 1 = height g - 1) as Hsub
      by (apply wrap64_id; unfold int_ok, minInt, maxInt in *; lia).
    rewrite Hsub in Hs1.
    case_bool_decide; injection Hs1 as <-;
      rewrite ?set_frame_set_frame, ?frame_set_frame in Hrest;
      destruct (IH (x + 1) _ s' ltac:(lia) ltac:(lia) Hh Hrest)
        as (rows & Hlen & Hrows & ->);
      exists (line :: rows).
    all: split_and!; [simpl; lia| |].
    all: try (intros [|k] l Hk; simpl in Hk;
              [injection Hk as <-; by rewrite Z.add_0_r|
               replace (x + Z.of_nat (S k)) with (x + 1 + Z.of_nat k) by lia;
               eauto]).
    + destruct rows as [|l' rows]; [simpl in Hlen; lia|].
      simpl. by rewrite <- !app_assoc.
    + destruct rows as [|l' rows]; [|simpl in Hlen; lia].
      simpl. by rewrite app_nil_r.
Qed.

Lemma joinRows_length (w : nat) rows :
  Forall (λ l, length l = w) rows → rows ≠ [] →
  length (joinRows rows) = (length rows * w + 2 * (length rows - 1))%nat.
Proof.
  induction 1 as [|l rows Hl Hrows IH]; [done|]. intros _.
  destruct rows as [|l' rows]; [simpl; lia|].
  change (joinRows (l :: l' :: rows)) with (l ++ crlf ++ joinRows (l' :: rows)).
  rewrite !length_app, IH by done. simpl. lia.
Qed.

(** X2. The frame [render] returns is the cursor-home sequence ESC [ H
    followed by the [height] rows that [renderRow] produces, top to bottom,
    each [width] bytes long and separated (not terminated) by CR LF; for a
    viewport of [h >= 1] rows and [w] columns that is [3 + h*w + 2*(h-1)]
    bytes. *)
Theorem render_frame_layout (g g' : game F) (out : list ascii) :
  1 ≤ width g ≤ maxInt → height g ≤ maxInt →
  render g = Ok (g', out) →
  ∃ rows,
    length rows = Z.to_nat (height g) ∧
    (∀ (row : nat) l, rows !! row = Some l →
       renderRow g (Z.of_nat row) (idiv (height g) 3)
         (idiv (isub (width g) trackWidth) 2) = Ok l ∧
       length l = Z.to_nat (width g)) ∧
    out = cursorHome ++ joinRows rows ∧
    (1 ≤ height g →
     Z.of_nat (length out)
     = 3 + height g * width g + 2 * (height g - 1)).
Proof.
  intros Hw Hh Hrun. unfold render in Hrun. cbv zeta in Hrun.
  apply bind_Ok in Hrun as (gf & Hloop & [= <- <-]).
  rewrite !(proj1 (set_frame_viewport _ _)),
          !(proj2 (set_frame_viewport _ _)) in Hloop.
  unfold for_loop in Hloop. rewrite set_frame_set_frame in Hloop.
  destruct (Z.le_gt_cases (height g) 0) as [Hle|Hgt].
  { replace (Z.to_nat (height g - 0)) with 0%nat in * by lia.
    injection Hloop as <-. exists []. rewrite frame_set_frame.
    split_and!; [simpl; lia|done|done|lia]. }
  apply (render_rows g) in Hloop as (rows & Hlen & Hrows & ->); [|lia..].
  rewrite frame_set_frame.
  assert (∀ (row : nat) l, rows !! row = Some l →
            renderRow g (Z.of_nat row) (idiv (height g) 3)
              (idiv (isub (width g) trackWidth) 2) = Ok l ∧
            length l = Z.to_nat (width g)) as Hall.
  { intros row l Hl. specialize (Hrows row l Hl). rewrite Z.add_0_l in Hrows.
    split; [done|].
    pose proof (renderRow_guarded (λ _, True) g Hw (Z.of_nat row)
                  (idiv (height g) 3) (idiv (isub (width g) trackWidth) 2)
                  (or_introl I)) as Hg.
    by rewrite Hrows in Hg. }
  exists rows. split_and!; [lia|done|done|].
  intros Hh1. rewrite length_app. simpl.
  rewrite (joinRows_length (Z.to_nat (width g))).
  - nia.
  - apply Forall_lookup. intros i l Hl. exact (proj2 (Hall i l Hl)).
  - intros ->. simpl in Hlen. lia.
Qed.

(** ** Rendering twice *)

Lemma render_stale_frame f (g : game F) : render (set_frame f g) = render g.
Proof. by destruct g. Qed.

(** X3. [render] starts from an empty frame buffer, so what it returns
    does not depend on the bytes the last frame left in [g.frame]; rendering
    again the state a call has left gives the same bytes and the same
    state. *)
Theorem render_is_repeatable (g : game F) :
  (∀ f, render (set_frame f g) = render g) ∧
  (∀ g' out, render g = Ok (g', out) → render g' = Ok (g', out)).
Proof.
  split; [intros f; apply render_stale_frame|].
  intros g' out Hrun. pose proof (render_frame_only _ _ _ Hrun) as ->.
  by rewrite render_stale_frame.
Qed.

(** ** The horizon line and the HUD *)

Lemma guarded_Ok {A} allow (P : A → Prop) m a :
  guarded allow P m → m = Ok a → P a.
Proof. by intros Hg ->. Qed.

Lemma iter_up_ext {St} (body body' : Z → St → result St) n : ∀ x s,
  (∀ y t, x ≤ y < x + Z.of_nat n → body y t = body' y t) →
  iter_up n x body s = iter_up n x body' s.
Proof.
  induction n as [|n IH]; intros x s Hext; [done|].
  rewrite !iter_up_S, Hext by lia. destruct (body' x s); [|done].
  simpl. apply IH. intros y t Hy. apply Hext. lia.
Qed.

Lemma fill_spec c buf : fill c buf = Ok (replicate (length buf) c).
Proof.
  unfold fill, for_loop.
  rewrite (iter_up_ext _ (λ y b, if bool_decide (0 ≤ y) then bset b y c
                                 else Ok b))
    by (intros y t Hy; by rewrite bool_decide_true by lia).
  destruct (iter_up_paint c
              (λ y b, if bool_decide (0 ≤ y) then bset b y c else Ok b)
              (Z.to_nat (len buf - 0)) 0 buf) as (b' & -> & Hlen & Hb');
    [done|unfold len; lia|].
  f_equal. apply list_eq. intros i.
  destruct (decide (i < length buf)%nat) as [Hi|Hi].
  - rewrite Hb', lookup_replicate_2 by done.
    by rewrite bool_decide_true by (unfold len; lia).
  - rewrite !lookup_ge_None_2; [done|rewrite length_replicate; lia|lia].
Qed.

Lemma guarded_write_spec buf pos c :
  ∃ b, (if bool_decide (0 ≤ pos) && bool_decide (pos < len buf)
        then bset buf pos c else Ok buf) = Ok b ∧ length b = length buf.
Proof.
  unfold bset, len. repeat case_bool_decide; simpl; try lia; eauto.
  eexists. split; [done|]. by rewrite length_insert.
Qed.

(** X6. The row above the horizon is a solid line: [renderRow] returns
    [width] underscores there, whatever stars [drawSky] has put on the row
    before.  (Rows 0 and 1 carry the HUD and are left out.) *)
Theorem horizon_row_is_a_solid_line (g : game F) (row trackLeft : Z) :
  1 ≤ width g ≤ maxInt → 2 ≤ row < maxInt →
  renderRow g row (row + 1) trackLeft
  = Ok (replicate (Z.to_nat (width g)) "_"%char).
Proof.
  intros Hw Hrow. unfold renderRow, make_buf.
  rewrite (bool_decide_false (width g < 0)) by lia.
  change (Ok ?a ≫= ?k) with (k a). cbv beta.
  rewrite fill_spec, length_replicate.
  change (Ok ?a ≫= ?k) with (k a). cbv beta.
  rewrite (bool_decide_true (row < row + 1)) by lia.
  unfold drawSky.
  assert (isub (row + 1) 1 = row) as ->.
  { unfold isub. replace (row + 1 - 1) with row by lia.
    apply wrap64_id. unfold int_ok, minInt, maxInt in *. lia. }
  rewrite (bool_decide_true (row = row)) by done.
  set (sky := replicate (Z.to_nat (width g)) " "%char).
  assert (length sky = Z.to_nat (width g)) as Hsky
    by (subst sky; by rewrite length_replicate).
  assert (∃ b, (if bool_decide (irem row 3 = 0) then
                  pos ← rem_checked (iadd (imul row 17) 11) (len sky);
                  buf ← (if bool_decide (0 ≤ pos) && bool_decide (pos < len sky)
                         then bset sky pos "."%char else Ok sky);
                  pos2 ← rem_checked (iadd (imul row 31) 7) (len buf);
                  if bool_decide (0 ≤ pos2) && bool_decide (pos2 < len buf)
                  then bset buf pos2 "."%char else Ok buf
                else Ok sky) = Ok b ∧ length b = Z.to_nat (width g))
    as (b & -> & Hb).
  { case_bool_decide; [|eauto]. unfold rem_checked.
    rewrite (bool_decide_false (len sky = 0)) by (unfold len; lia).
    change (Ok ?a ≫= ?k) with (k a). cbv beta.
    destruct (guarded_write_spec sky (irem (iadd (imul row 17) 11) (len sky))
                "."%char) as (b1 & -> & Hb1).
    change (Ok ?a ≫= ?k) with (k a). cbv beta.
    rewrite (bool_decide_false (len b1 = 0)) by (unfold len; lia).
    change (Ok ?a ≫= ?k) with (k a). cbv beta.
    destruct (guarded_write_spec b1 (irem (iadd (imul row 31) 7) (len b1))
                "."%char) as (b2 & -> & Hb2).
    exists b2. split; [done|congruence]. }
  change (Ok ?a ≫= ?k) with (k a). cbv beta.
  rewrite fill_spec, Hb.
  change (Ok ?a ≫= ?k) with (k a). cbv beta.
  rewrite (bool_decide_false (row = 0)) by lia.
  change (Ok ?a ≫= ?k) with (k a). cbv beta.
  by rewrite (bool_decide_false (row = 1)) by lia.
Qed.

Lemma renderRow_scene (g : game F) row horizon trackLeft line :
  1 ≤ width g ≤ maxInt →
  renderRow g row horizon trackLeft = Ok line →
  ∃ scene,
    (if bool_decide (row < horizon)
     then drawSky g (replicate (Z.to_nat (width g)) " "%char) row horizon
     else drawGround g (replicate (Z.to_nat (width g)) " "%char) row horizon
            trackLeft) = Ok scene ∧
    length scene = Z.to_nat (width g) ∧
    (if bool_decide (row = 0) then
       placeStringBytes scene
         (isub (isub (width g)
                  (len (list_ascii_of_string " SCORE: " ++ fmt_07d (score g)
                        ++ list_ascii_of_string " "))) 1)
         (list_ascii_of_string " SCORE: " ++ fmt_07d (score g)
          ++ list_ascii_of_string " ")
     else if bool_decide (row = 1) then
       placeStringBytes scene
         (isub (isub (width g)
                  (len (list_ascii_of_string " COINS: " ++ fmt_d (coins g)
                        ++ list_ascii_of_string " "))) 1)
         (list_ascii_of_string " COINS: " ++ fmt_d (coins g)
          ++ list_ascii_of_string " ")
     else Ok scene) = Ok line.
Proof.
  intros Hw Hrun. unfold renderRow, make_buf in Hrun.
  rewrite (bool_decide_false (width g < 0)) in Hrun by lia.
  change (Ok ?a ≫= ?k) with (k a) in Hrun. cbv beta in Hrun.
  rewrite fill_spec, length_replicate in Hrun.
  change (Ok ?a ≫= ?k) with (k a) in Hrun. cbv beta in Hrun.
  apply bind_Ok in Hrun as (scene & Hscene & Hrun).
  assert (length scene = Z.to_nat (width g)) as Hlen.
  { refine (guarded_Ok (λ _, True) (sized (Z.to_nat (width g))) _ scene _ Hscene).
    assert (sized (Z.to_nat (width g))
              (replicate (Z.to_nat (width g)) " "%char)) as Hsz
      by (unfold sized; by rewrite length_replicate).
    destruct (bool_decide (row < horizon));
      [by apply drawSky_guarded|apply drawGround_guarded; auto]. }
  exists scene. split; [done|]. split; [done|].
  apply bind_Ok in Hrun as (b & Hb & Hrun).
  destruct (decide (row = 0)) as [->|H0].
  - rewrite (bool_decide_true (0 = 0)) in Hb |- * by done.
    rewrite (bool_decide_false (0 = 1)) in Hrun by lia.
    by injection Hrun as <-.
  - rewrite (bool_decide_false (row = 0)) in Hb |- * by done.
    by injection Hb as <-.
Qed.

(** X5. The HUD is written after the scene of its row: when the viewport
    is wide enough for the text and one more column, row 0 shows
    [" SCORE: %07d "] and row 1 [" COINS: %d "] in full, ending one column
    before the right edge, over whatever the scene held there. *)
Theorem hud_is_drawn_over_the_scene
    (g : game F) (horizon trackLeft : Z) (line : list ascii) :
  1 ≤ width g ≤ maxInt →
  (let hud := list_ascii_of_string " SCORE: " ++ fmt_07d (score g)
              ++ list_ascii_of_string " " in
   len hud + 1 ≤ width g →
   renderRow g 0 horizon trackLeft = Ok line →
   ∀ (k : nat) c, hud !! k = Some c →
     line !! (Z.to_nat (width g - len hud - 1) + k)%nat = Some c) ∧
  (let hud := list_ascii_of_string " COINS: " ++ fmt_d (coins g)
              ++ list_ascii_of_string " " in
   len hud + 1 ≤ width g →
   renderRow g 1 horizon trackLeft = Ok line →
   ∀ (k : nat) c, hud !! k = Some c →
     line !! (Z.to_nat (width g - len hud - 1) + k)%nat = Some c).
Proof.
  intros Hw. split; intros hud Hfit Hrun k c Hk;
    apply renderRow_scene in Hrun as (scene & _ & Hlen & Hrun); try done.
  all: pose proof (lookup_lt_Some _ _ _ Hk) as Hklt.
  all: assert (isub (isub (width g) (len hud)) 1 = width g - len hud - 1) as Hx
    by (unfold isub, len in *;
        rewrite (wrap64_id (width g - _))
          by (unfold int_ok, minInt, maxInt in *; lia);
        apply wrap64_id; unfold int_ok, minInt, maxInt in *; lia).
  - rewrite (bool_decide_true (0 = 0)) in Hrun by done.
    fold hud in Hrun. rewrite Hx in Hrun. unfold placeStringBytes in Hrun.
    destruct (placeLoop_spec (width g - len hud - 1) hud scene 0)
      as (b' & Hb' & _ & Hspec); [unfold len, minInt, maxInt in *; lia..|].
    rewrite Hb' in Hrun. injection Hrun as <-.
    rewrite Hspec by (unfold len in *; lia).
    rewrite bool_decide_true by (unfold len in *; lia).
    rewrite <- Hk. f_equal. unfold len in *. lia.
  - rewrite (bool_decide_false (1 = 0)) in Hrun by lia.
    rewrite (bool_decide_true (1 = 1)) in Hrun by done.
    fold hud in Hrun. rewrite Hx in Hrun. unfold placeStringBytes in Hrun.
    destruct (placeLoop_spec (width g - len hud - 1) hud scene 0)
      as (b' & Hb' & _ & Hspec); [unfold len, minInt, maxInt in *; lia..|].
    rewrite Hb' in Hrun. injection Hrun as <-.
    rewrite Hspec by (unfold len in *; lia).
    rewrite bool_decide_true by (unfold len in *; lia).
    rewrite <- Hk. f_equal. unfold len in *. lia.
Qed.

(** ** The runner is drawn last *)

Lemma drawGround_ends_with_runner
    (g : game F) buf row horizon trackLeft b' :
  (of_int (isub row horizon) ⊘ of_int (isub (height g) horizon) ≼ of_int 0)
  = false →
  drawGround g buf row horizon trackLeft = Ok b' →
  ∃ b, drawRunner g row horizon (idiv (width g) 2) b = Ok b'.
Proof.
  intros Hdepth Hrun. unfold drawGround in Hrun. rewrite Hdepth in Hrun.
  cbv zeta in Hrun.
  do 8 (apply bind_Ok in Hrun as (? & _ & Hrun)). eauto.
Qed.

Lemma placeStringBytes_length buf x s b' :
  placeStringBytes buf x s = Ok b' → length b' = length buf.
Proof.
  intros Hrun.
  by refine (guarded_Ok (λ _, True) (sized (length buf)) _ b'
               (guarded_placeStringBytes _ _ buf x s _) Hrun).
Qed.

Lemma drawRunner_length (g : game F) row horizon center b b' :
  drawRunner g row horizon center b = Ok b' → length b' = length b.
Proof.
  unfold drawRunner. cbv zeta. intros Hrun.
  destruct (bool_decide (row = isub _ 2)).
  { destruct (_ && _); [|by injection Hrun as <-].
    apply bset_lookup in Hrun as [-> _]. by rewrite length_insert. }
  destruct (bool_decide (row = isub _ 1)).
  { by apply placeStringBytes_length in Hrun. }
  destruct (bool_decide (row = _)); [|by injection Hrun as <-].
  apply bind_Ok in Hrun as (l & _ & Hrun).
  by apply placeStringBytes_length in Hrun.
Qed.

Lemma isub_1_ne_2 a : isub a 1 ≠ isub a 2.
Proof.
  unfold isub, wrap64. intros H.
  assert ((a - 1 + 2 ^ 63) `mod` 2 ^ 64 = (a - 2 + 2 ^ 63) `mod` 2 ^ 64)
    as H' by lia.
  clear H. replace (a - 1 + 2 ^ 63) with (a - 2 + 2 ^ 63 + 1) in H' by lia.
  revert H'. generalize (a - 2 + 2 ^ 63). intros u H.
  pose proof (Z.mod_pos_bound u (2 ^ 64) ltac:(done)).
  pose proof (Z.div_mod u (2 ^ 64) ltac:(done)).
  pose proof (Z.div_mod (u + 1) (2 ^ 64) ltac:(done)).
  nia.
Qed.

Lemma if_both_true {A} (b1 b2 : bool) (x y : A) :
  b1 = true → b2 = true → (if b1 && b2 then x else y) = x.
Proof. by intros -> ->. Qed.

Lemma if_true_then {A} (b : bool) (x y : A) :
  b = true → (if b then x else y) = x.
Proof. by intros ->. Qed.

Lemma if_false_else {A} (b : bool) (x y : A) :
  b = false → (if b then x else y) = y.
Proof. by intros ->. Qed.

Lemma drawRunner_unfold (g : game F) row horizon b :
  drawRunner g row horizon (idiv (width g) 2) b =
    if bool_decide (row = isub (runnerRow g horizon) 2) then
      if bool_decide (0 ≤ runnerCol g) && bool_decide (runnerCol g < width g)
      then bset b (runnerCol g) "O"%char else Ok b
    else if bool_decide (row = isub (runnerRow g horizon) 1) then
      placeStringBytes b (isub (runnerCol g) 1) (list_ascii_of_string "/|\")
    else if bool_decide (row = runnerRow g horizon) then
      l ← arr_get legs (irem (to_int (elapsed g ⊗ of_int 8)) 4);
      placeStringBytes b (isub (runnerCol g) 1) (list_ascii_of_string l)
    else Ok b.
Proof. unfold drawRunner, runnerRow, runnerCol. cbv zeta. reflexivity. Qed.

(** X7. The runner is drawn after the track, the obstacles and the
    coins, so nothing of the scene hides it: on a ground row below the HUD,
    the head ['O'] is at the runner's column two rows above [runnerRow], and
    the body ["/|\\"] one row above, centred on that column, wherever they
    fall inside the viewport. *)
Theorem runner_is_drawn_over_the_scene
    (g : game F) (row horizon trackLeft : Z) (line : list ascii) :
  1 ≤ width g < maxInt → 2 ≤ row → horizon ≤ row →
  (of_int (isub row horizon) ⊘ of_int (isub (height g) horizon) ≼ of_int 0)
  = false →
  renderRow g row horizon trackLeft = Ok line →
  (row = isub (runnerRow g horizon) 2 → 0 ≤ runnerCol g < width g →
     line !! Z.to_nat (runnerCol g) = Some "O"%char) ∧
  (row = isub (runnerRow g horizon) 1 →
     ∀ (k : nat) c, list_ascii_of_string "/|\" !! k = Some c →
       0 ≤ runnerCol g - 1 + Z.of_nat k < width g →
       line !! Z.to_nat (runnerCol g - 1 + Z.of_nat k) = Some c).
Proof.
  intros Hw Hrow Hground Hdepth Hrun.
  apply renderRow_scene in Hrun as (scene & Hscene & Hlen & Hline); [|lia].
  rewrite (bool_decide_false (row = 0)), (bool_decide_false (row = 1))
    in Hline by lia.
  injection Hline as <-.
  rewrite (bool_decide_false (row < horizon)) in Hscene by lia.
  apply drawGround_ends_with_runner in Hscene as (b & Hrun); [|done].
  pose proof (drawRunner_length _ _ _ _ _ _ Hrun) as Hb. rewrite Hlen in Hb.
  rewrite drawRunner_unfold in Hrun.
  split.
  - intros Hhead Hcol.
    rewrite if_true_then in Hrun by (by apply bool_decide_eq_true_2).
    rewrite if_both_true in Hrun by (apply bool_decide_eq_true_2; lia).
    pose proof (bset_lookup _ _ _ _ Hrun) as [-> _].
    apply list_lookup_insert_eq. lia.
  - intros Hbody k c Hk Hcol.
    pose proof (lookup_lt_Some _ _ _ Hk) as Hklt. simpl in Hklt.
    assert (isub (runnerRow g horizon) 1 ≠ isub (runnerRow g horizon) 2)
      as Hne.
    { apply isub_1_ne_2. }
    rewrite if_false_else in Hrun
      by (apply bool_decide_eq_false_2; congruence).
    rewrite if_true_then in Hrun by (by apply bool_decide_eq_true_2).
    assert (isub (runnerCol g) 1 = runnerCol g - 1) as Hx
      by (apply wrap64_id; unfold int_ok, minInt, maxInt in *; lia).
    rewrite Hx in Hrun.
    destruct (placeStringBytes_spec b (list_ascii_of_string "/|\")
                (runnerCol g - 1)) as (b' & Hb' & _ & Hspec);
      [unfold len, minInt, maxInt in *; simpl; lia..|].
    assert (b' = scene) as -> by congruence.
    rewrite Hspec by lia.
    rewrite bool_decide_true by (unfold len; simpl; lia).
    rewrite <- Hk. f_equal. lia.
Qed.

(** ** The sky *)

Lemma bset_in_range buf i c :
  0 ≤ i < len buf → bset buf i c = Ok (<[Z.to_nat i := c]> buf).
Proof. intros Hi. unfold bset. by rewrite bool_decide_true. Qed.

Lemma star_column a w :
  0 ≤ a ≤ maxInt → 0 < w → irem a w = a `mod` w ∧ 0 ≤ a `mod` w < w.
Proof.
  intros Ha Hw. unfold irem. rewrite Z.rem_mod_nonneg by lia.
  split; [done|]. by apply Z.mod_pos_bound.
Qed.

(** X17. The sky rows between the HUD and the horizon line: a row whose
    number is a multiple of 3 holds two stars, at columns
    [(row*17 + 11) mod width] and [(row*31 + 7) mod width] (one star when the
    two coincide), and blanks elsewhere; every other row is blank.  (The
    products are taken within the range of [int].) *)
Theorem sky_rows_show_their_stars (g : game F) (row horizon trackLeft : Z) :
  1 ≤ width g ≤ maxInt → 2 ≤ row → row + 1 < horizon ≤ maxInt →
  row * 31 + 7 ≤ maxInt →
  renderRow g row horizon trackLeft
  = Ok (if bool_decide (irem row 3 = 0)
        then <[Z.to_nat ((row * 31 + 7) `mod` width g) := "."%char]>
               (<[Z.to_nat ((row * 17 + 11) `mod` width g) := "."%char]>
                  (replicate (Z.to_nat (width g)) " "%char))
        else replicate (Z.to_nat (width g)) " "%char).
Proof.
  intros Hw Hrow Hhor Hmul. unfold renderRow, make_buf.
  rewrite (bool_decide_false (width g < 0)) by lia.
  change (Ok ?a ≫= ?k) with (k a). cbv beta.
  rewrite fill_spec, length_replicate.
  change (Ok ?a ≫= ?k) with (k a). cbv beta.
  rewrite (bool_decide_true (row < horizon)) by lia.
  unfold drawSky.
  assert (isub horizon 1 = horizon - 1) as ->
    by (apply wrap64_id; unfold int_ok, minInt, maxInt in *; lia).
  rewrite (bool_decide_false (row = horizon - 1)) by lia.
  set (sky := replicate (Z.to_nat (width g)) " "%char).
  assert (len sky = width g) as Hsky
    by (subst sky; unfold len; rewrite length_replicate; lia).
  assert (iadd (imul row 17) 11 = row * 17 + 11 ∧
          iadd (imul row 31) 7 = row * 31 + 7) as [-> ->].
  { unfold iadd, imul.
    rewrite !(wrap64_id (row * _)) by (unfold int_ok, minInt, maxInt in *; lia).
    split; apply wrap64_id; unfold int_ok, minInt, maxInt in *; lia. }
  destruct (star_column (row * 17 + 11) (width g)) as [H1 H1'];
    [unfold maxInt in *; lia|lia|].
  destruct (star_column (row * 31 + 7) (width g)) as [H2 H2'];
    [unfold maxInt in *; lia|lia|].
  assert ((if bool_decide (irem row 3 = 0) then
             pos ← rem_checked (row * 17 + 11) (len sky);
             buf ← (if bool_decide (0 ≤ pos) && bool_decide (pos < len sky)
                    then bset sky pos "."%char else Ok sky);
             pos2 ← rem_checked (row * 31 + 7) (len buf);
             if bool_decide (0 ≤ pos2) && bool_decide (pos2 < len buf)
             then bset buf pos2 "."%char else Ok buf
           else Ok sky)
          = Ok (if bool_decide (irem row 3 = 0)
                then <[Z.to_nat ((row * 31 + 7) `mod` width g) := "."%char]>
                       (<[Z.to_nat ((row * 17 + 11) `mod` width g) := "."%char]>
                          sky)
                else sky)) as ->.
  { destruct (bool_decide (irem row 3 = 0)); [|done].
    unfold rem_checked. rewrite Hsky.
    rewrite (bool_decide_false (width g = 0)) by lia.
    change (Ok ?a ≫= ?k) with (k a). cbv beta. rewrite H1.
    rewrite if_both_true by (apply bool_decide_eq_true_2; lia).
    rewrite bset_in_range by lia.
    change (Ok ?a ≫= ?k) with (k a). cbv beta.
    assert (len (<[Z.to_nat ((row * 17 + 11) `mod` width g) := "."%char]> sky)
            = width g) as Hlen
      by (unfold len in *; by rewrite length_insert).
    rewrite Hlen. rewrite (bool_decide_false (width g = 0)) by lia.
    change (Ok ?a ≫= ?k) with (k a). cbv beta. rewrite H2.
    rewrite if_both_true by (apply bool_decide_eq_true_2; lia).
    by rewrite bset_in_range by lia. }
  change (Ok ?a ≫= ?k) with (k a). cbv beta.
  rewrite (bool_decide_false (row = 0)) by lia.
  change (Ok ?a ≫= ?k) with (k a). cbv beta.
  by rewrite (bool_decide_false (row = 1)) by lia.
Qed.

(** ** The lane the dodge picks *)

Lemma coinInLane_fold_spec l cs : ∀ best,
  fold_left (coinInLane l) cs best = if coinAhead cs l then l else best.
Proof.
  induction cs as [|c cs IH]; intros best; [done|].
  simpl. rewrite IH. unfold coinInLane.
  destruct (c_active c && bool_decide (c_lane c = l)
            && (c_z c ≺ of_int dodgeLookahead)); simpl; [|done].
  by destruct (coinAhead cs l).
Qed.

Lemma pickLane_choice d0 d1 d2 cs :
  for_loop 0 numLanes (pickLane [d0; d1; d2] cs) (-1)
  = Ok (if negb d2 && coinAhead cs 2 then 2
        else if negb d1 && coinAhead cs 1 then 1
        else if negb d0 then 0
        else if negb d1 then 1
        else if negb d2 then 2
        else -1).
Proof.
  unfold for_loop, pickLane.
  destruct (coinAhead cs 0) eqn:E0, (coinAhead cs 1) eqn:E1,
    (coinAhead cs 2) eqn:E2, d0, d1, d2; simpl;
    change (0 + 1 + 1) with 2; change (0 + 1) with 1;
    repeat (rewrite coinInLane_fold_spec, ?E0, ?E1, ?E2; simpl); done.
Qed.

(** X8. Which lane [autoDodge] moves to.  When the target lane is
    dangerous, the new target is the highest-numbered lane that is not
    dangerous and holds an active coin nearer than the lookahead (whatever
    its sign: a coin already behind the runner counts); without such a lane
    it is the lowest-numbered lane that is not dangerous; without any, the
    target stays.  A target lane that is not dangerous stays. *)
Theorem autoDodge_prefers_coin_lanes (g g' : game F) :
  autoDodge g = Ok g' →
  g' = if laneDanger (obstacles g) (targetLane g) then
         match preferredLane (obstacles g) (coinPool g) with
         | Some l => set_targetLane l g
         | None => g
         end
       else g.
Proof.
  intros Hrun. pose proof Hrun as Hrun0. unfold autoDodge in Hrun0.
  apply bind_Ok in Hrun0 as (d & Hd & Hrest).
  pose proof (dangerFlags_spec _ _ Hd) as ->.
  apply bind_Ok in Hrest as (dc & Hdc & _).
  assert (0 ≤ targetLane g < numLanes) as Hcur.
  { unfold arr_get in Hdc. case_bool_decide as Hin; [|done].
    simpl in Hin. unfold numLanes. lia. }
  destruct (autoDodge_unfold g _ _ _ Hd Hcur) as (dt & b & Hdt & Hb & Heq).
  rewrite Hrun in Heq. injection Heq as ->.
  rewrite pickLane_choice in Hb. injection Hb as <-.
  assert (dt = laneDanger (obstacles g) (targetLane g)) as ->.
  { assert (targetLane g = 0 ∨ targetLane g = 1 ∨ targetLane g = 2)
      as [Hc|[Hc|Hc]] by (unfold numLanes in Hcur; lia);
      rewrite Hc in Hdt |- *; simpl in Hdt; congruence. }
  unfold preferredLane. cbv zeta.
  destruct (laneDanger (obstacles g) (targetLane g)); [|done]. simpl.
  destruct (laneDanger (obstacles g) 0), (laneDanger (obstacles g) 1),
    (laneDanger (obstacles g) 2), (coinAhead (coinPool g) 1),
    (coinAhead (coinPool g) 2); done.
Qed.

(** ** Spawning into a pool with free slots *)

Lemma spawnObstacleLoop_first_free pre o post r :
  Forall (λ o, o_active o = true) pre → o_active o = false →
  spawnObstacleLoop (pre ++ o :: post) r
  = (pre ++ Obstacle (Intn numLanes r).1 (of_int spawnZ) true :: post, adv r).
Proof.
  intros Hpre Ho. induction Hpre as [|p pre Hp _ IH]; simpl.
  - by rewrite Ho.
  - by rewrite Hp, IH.
Qed.

(** X9. [spawnObstacle] with a free slot: the first inactive slot of the
    pool, and no other, becomes an active obstacle at depth [spawnZ] in the
    lane drawn from the generator, a lane in [0, numLanes); the generator
    advances by that one draw and no other field changes. *)
Theorem spawnObstacle_claims_first_free_slot
    (g : game F) (r : rng) (pre post : list (obstacle F)) (o : obstacle F) :
  obstacles g = pre ++ o :: post →
  Forall (λ o, o_active o = true) pre → o_active o = false →
  let lane := (Intn numLanes r).1 in
  spawnObstacle g r
  = (set_obstacles (pre ++ Obstacle lane (of_int spawnZ) true :: post) g,
     adv r) ∧
  0 ≤ lane < numLanes.
Proof.
  intros Hos Hpre Ho lane. split.
  - unfold spawnObstacle. by rewrite Hos, spawnObstacleLoop_first_free.
  - subst lane. unfold Intn, numLanes. simpl. apply Z.mod_pos_bound. lia.
Qed.

Lemma claimCoin_first_free lane j pre c post :
  Forall (λ c, c_active c = true) pre → c_active c = false →
  claimCoin lane j (pre ++ c :: post)
  = pre ++ CoinObj lane (of_int spawnZ ⊕ of_int j ⊗ dec 15 10) true :: post.
Proof.
  intros Hpre Hc. induction Hpre as [|p pre Hp _ IH]; simpl.
  - by rewrite Hc.
  - by rewrite Hp, IH.
Qed.

Lemma app_cons_assoc {A} (a : list A) x b t :
  a ++ x :: b ++ t = (a ++ x :: b) ++ t.
Proof. by rewrite <- app_assoc. Qed.

(** X10. [spawnCoin] lays a trail: the first three inactive slots of the
    coin pool become active coins of one lane, drawn once from the
    generator, at depths [spawnZ], [spawnZ + 1.5] and [spawnZ + 3], in slot
    order.  With only two inactive slots the third coin is dropped, with
    only one the second and the third.  Slots that were active are never
    overwritten. *)
Theorem spawnCoin_lays_a_trail (g : game F) (r : rng) :
  let lane := (Intn numLanes r).1 in
  let coin j := CoinObj lane (of_int spawnZ ⊕ of_int j ⊗ dec 15 10) true in
  let full := Forall (λ c : coinObj F, c_active c = true) in
  (∀ a c0 b c1 c c2 d,
     coinPool g = a ++ c0 :: b ++ c1 :: c ++ c2 :: d →
     full a → full b → full c →
     c_active c0 = false → c_active c1 = false → c_active c2 = false →
     spawnCoin g r
     = (set_coinPool (a ++ coin 0 :: b ++ coin 1 :: c ++ coin 2 :: d) g,
        adv r)) ∧
  (∀ a c0 b c1 c,
     coinPool g = a ++ c0 :: b ++ c1 :: c →
     full a → full b → full c →
     c_active c0 = false → c_active c1 = false →
     spawnCoin g r
     = (set_coinPool (a ++ coin 0 :: b ++ coin 1 :: c) g, adv r)) ∧
  (∀ a c0 b,
     coinPool g = a ++ c0 :: b →
     full a → full b → c_active c0 = false →
     spawnCoin g r = (set_coinPool (a ++ coin 0 :: b) g, adv r)).
Proof.
  intros lane coin full. unfold spawnCoin, adv.
  destruct (Intn numLanes r) as [l r'] eqn:Hr. subst lane. simpl in coin.
  assert (∀ a b : list (coinObj F), full a → full b → ∀ j,
            full (a ++ coin j :: b)) as Hfull
    by (intros a b Ha Hb j; apply Forall_app; split; [done|by constructor]).
  split_and!.
  - intros a c0 b c1 c c2 d -> Ha Hb Hc H0 H1 H2.
    rewrite (claimCoin_first_free l 0 a c0) by done.
    rewrite (app_cons_assoc a (coin 0) b).
    rewrite (claimCoin_first_free l 1 (a ++ coin 0 :: b) c1);
      [|by apply Hfull|done].
    rewrite (app_cons_assoc (a ++ coin 0 :: b) (coin 1) c).
    rewrite (claimCoin_first_free l 2 _ c2);
      [|apply Hfull; [by apply Hfull|done]|done].
    by rewrite <- !app_cons_assoc.
  - intros a c0 b c1 c -> Ha Hb Hc H0 H1.
    rewrite (claimCoin_first_free l 0 a c0) by done.
    rewrite (app_cons_assoc a (coin 0) b).
    rewrite (claimCoin_first_free l 1 (a ++ coin 0 :: b) c1);
      [|by apply Hfull|done].
    rewrite claimCoin_full; [by rewrite <- !app_cons_assoc|].
    rewrite <- app_cons_assoc. apply Hfull; [done|by apply Hfull].
  - intros a c0 b -> Ha Hb H0.
    rewrite (claimCoin_first_free l 0 a c0) by done.
    rewrite (claimCoin_full l 1) by (by apply Hfull).
    by rewrite (claimCoin_full l 2) by (by apply Hfull).
Qed.

(** ** The phases of [update] *)

Lemma update_phases dt g r g' r' :
  update dt g r = Ok (g', r') →
  ∃ gs gd,
    spawnStep dt (moveCoins dt (moveObstacles dt (tick dt g))) r = (gs, r') ∧
    autoDodge gs = Ok gd ∧ g' = laneStep dt gd.
Proof.
  unfold update. cbv zeta. destruct (spawnStep dt _ r) as [gs rs].
  intros Hrun. apply bind_Ok in Hrun as (gd & Hd & [= <- <-]). eauto.
Qed.

Lemma tick_viewport dt (g : game F) :
  width (tick dt g) = width g ∧ height (tick dt g) = height g.
Proof. unfold tick. cbv zeta. destruct (_ ≺ _); by destruct g. Qed.

Lemma spawn_phase_frame dt g r gs r' :
  spawnStep dt (moveCoins dt (moveObstacles dt (tick dt g))) r = (gs, r') →
  runnerLane gs = runnerLane g ∧ laneX gs = laneX g ∧
  width gs = width g ∧ height gs = height g.
Proof.
  intros Hs. rewrite spawnStep_unfold in Hs. cbv zeta in Hs.
  injection Hs as <- _. rewrite spawnTimers_frame, moveCoins_unfold.
  destruct (tick_frame dt g) as (_ & _ & _ & Hr & _ & Hx & _).
  destruct (tick_viewport dt g) as [Hw Hh].
  rewrite <- Hr, <- Hx, <- Hw, <- Hh. unfold moveObstacles.
  by destruct (tick dt g).
Qed.

Lemma laneStep_runner dt (g : game F) :
  (runnerLane (laneStep dt g) = runnerLane g ∨
   runnerLane (laneStep dt g) = targetLane g) ∧
  targetLane (laneStep dt g) = targetLane g ∧
  obstacles (laneStep dt g) = obstacles g ∧
  coinPool (laneStep dt g) = coinPool g ∧
  width (laneStep dt g) = width g ∧ height (laneStep dt g) = height g.
Proof.
  unfold laneStep. cbv zeta.
  repeat match goal with |- context [if ?b then _ else _] => destruct b end;
    destruct g; simpl; split_and!; auto.
Qed.

(** ** Obstacles in [update] *)

Lemma spawnObstacleLoop_slot os r : ∀ i o,
  os !! i = Some o →
  (spawnObstacleLoop os r).1 !! i = Some o ∨
  o_active o = false ∧
  ∃ l, 0 ≤ l < numLanes ∧
       (spawnObstacleLoop os r).1 !! i
       = Some (Obstacle l (of_int spawnZ) true).
Proof.
  induction os as [|p os IH]; intros i o Hi; [done|]. simpl.
  destruct (o_active p) eqn:Hp; simpl.
  - destruct (spawnObstacleLoop os r) as [os' r1] eqn:Hl.
    destruct i as [|i]; simpl in *; [by left|].
    destruct (IH i o Hi) as [?|(? & l & ? & ?)]; [by left|right]. eauto.
  - destruct i as [|i]; simpl in *; [|by left].
    injection Hi as <-. right. split; [done|].
    eexists. split; [|done]. unfold numLanes. apply Z.mod_pos_bound. lia.
Qed.

Lemma spawnObstacleLoop_length os r :
  length (spawnObstacleLoop os r).1 = length os.
Proof.
  induction os as [|p os IH]; [done|]. simpl.
  destruct (o_active p); simpl; [|done].
  destruct (spawnObstacleLoop os r). simpl in *. by rewrite IH.
Qed.

(** X11. What [update] does to an obstacle slot.  An active obstacle
    moves toward the viewer by the speed of this tick (the ramp at the
    advanced clock) times [dt] and keeps its lane; it stays active unless
    its new depth is below -1.  A slot that is inactive, or has just been
    deactivated, is left as it is or taken by the spawn of this tick. *)
Theorem update_moves_the_obstacles
    (dt : F) (g : game F) (r : rng) (g' : game F) (r' : rng)
    (i : nat) (o : obstacle F) :
  update dt g r = Ok (g', r') → obstacles g !! i = Some o →
  let z' := o_z o ⊖ rampSpeed (elapsed g ⊕ dt) ⊗ dt in
  let spawned :=
    ∃ l, 0 ≤ l < numLanes ∧
         obstacles g' !! i = Some (Obstacle l (of_int spawnZ) true) in
  (o_active o = true → (z' ≺ of_int (-1)) = false →
     obstacles g' !! i = Some (Obstacle (o_lane o) z' true)) ∧
  (o_active o = true → (z' ≺ of_int (-1)) = true →
     obstacles g' !! i = Some (Obstacle (o_lane o) z' false) ∨ spawned) ∧
  (o_active o = false → obstacles g' !! i = Some o ∨ spawned).
Proof.
  intros Hrun Hi z' spawned.
  apply update_pools in Hrun as [(r1 & Hos) _]. cbv zeta in Hos.
  set (sp := rampSpeed (elapsed g ⊕ dt)) in *.
  assert (map (moveObstacle sp dt) (obstacles g) !! i
          = Some (moveObstacle sp dt o)) as Hm
    by (by rewrite list_lookup_fmap, Hi).
  assert (obstacles g' !! i = Some (moveObstacle sp dt o) ∨
          o_active (moveObstacle sp dt o) = false ∧ spawned) as Hslot.
  { destruct Hos as [Hos|Hos]; [left; by rewrite Hos|].
    subst spawned. rewrite Hos.
    by apply spawnObstacleLoop_slot. }
  unfold moveObstacle in Hslot. fold z' in Hslot.
  split_and!.
  - intros Ha Hz. rewrite Ha, Hz in Hslot. simpl in Hslot.
    by destruct Hslot as [?|[? _]].
  - intros Ha Hz. rewrite Ha, Hz in Hslot. simpl in Hslot. tauto.
  - intros Ha. rewrite Ha in Hslot. simpl in Hslot. tauto.
Qed.

(** ** Play never panics *)

Lemma moveCoin_lane sp dt rl (c : coinObj F) :
  c_lane (moveCoin sp dt rl c) = c_lane c.
Proof. unfold moveCoin. by repeat case_match. Qed.

Lemma claimCoin_length lane j cs : length (claimCoin lane j cs) = length cs.
Proof.
  induction cs as [|c cs IH]; [done|]. simpl.
  destruct (c_active c); simpl; by rewrite ?IH.
Qed.

Lemma claimCoin_lanes lane j cs :
  0 ≤ lane < numLanes →
  Forall (λ c, 0 ≤ c_lane c < numLanes) cs →
  Forall (λ c, 0 ≤ c_lane c < numLanes) (claimCoin lane j cs).
Proof.
  intros Hl. induction 1 as [|c cs Hc Hcs IH]; [done|]. simpl.
  destruct (c_active c); simpl; by constructor.
Qed.

Lemma update_well_formed dt g r g' r' :
  well_formed g → update dt g r = Ok (g', r') →
  well_formed g' ∧ width g' = width g ∧ height g' = height g.
Proof.
  intros (Hlanes & Hrl & Hcl & Hno & Hnc) Hrun.
  destruct (update_total dt g r Hlanes) as (g1 & r1 & Hrun1 & Hlanes').
  rewrite Hrun in Hrun1. injection Hrun1 as <- <-.
  pose proof (update_pools _ _ _ _ _ Hrun) as [(r1 & Hos) _].
  pose proof (update_summary _ _ _ _ _ Hrun) as (_ & r2 & _ & Hcp).
  cbv zeta in Hos, Hcp.
  apply update_phases in Hrun as (gs & gd & Hs & Hd & ->).
  apply spawn_phase_frame in Hs as (Hrs & _ & Hws & Hhs).
  apply autoDodge_frame in Hd.
  destruct (laneStep_runner dt gd) as (Hrun & Ht & _ & _ & Hw & Hh).
  assert (runnerLane gd = runnerLane g ∧ width gd = width g ∧
          height gd = height g) as (Hrd & Hwd & Hhd)
    by (rewrite Hd, <- Hrs, <- Hws, <- Hhs; by destruct gs).
  split; [|by rewrite Hw, Hh].
  set (M := moveCoins dt (tick dt (set_obstacles [] g))) in *.
  assert (coinPool M
          = map (moveCoin (speed (tick dt g)) dt (runnerLane g)) (coinPool g))
    as Hm.
  { subst M. rewrite moveCoins_unfold, tick_obstacles.
    destruct (tick_frame dt g) as (<- & _ & _ & <- & _).
    by destruct (tick dt g). }
  assert (0 ≤ (Intn numLanes r2).1 < numLanes) as Hlane
    by (unfold Intn, numLanes; simpl; apply Z.mod_pos_bound; lia).
  unfold well_formed. split; [exact Hlanes'|].
  split; [|split; [|split]].
  - destruct Hrun as [->| ->]; [by rewrite Hrd|].
    rewrite <- Ht. apply Hlanes'.
  - assert (Forall (λ c, 0 ≤ c_lane c < numLanes) (coinPool M)) as HM.
    { rewrite Hm. apply Forall_fmap. revert Hcl. apply Forall_impl.
      intros c Hc. simpl. by rewrite moveCoin_lane. }
    destruct (coinDue dt M); destruct Hcp as [-> _]; [|done].
    unfold trail. by repeat apply claimCoin_lanes.
  - destruct Hos as [-> | ->];
      by rewrite ?spawnObstacleLoop_length, length_map.
  - destruct (coinDue dt M); destruct Hcp as [-> _];
      unfold trail; by rewrite ?claimCoin_length, Hm, length_map.
Qed.

Lemma newGame_well_formed w h : well_formed (newGame w h).
Proof.
  split; [apply newGame_lanes_ok|]. split; [done|split; [|split]].
  - unfold newGame; cbn [coinPool]. by apply Forall_replicate.
  - unfold newGame; cbn [obstacles]. by rewrite length_replicate.
  - unfold newGame; cbn [coinPool]. by rewrite length_replicate.
Qed.

(** X12. Play never panics.  From the initial state, whatever the
    sequence of [dt] values and whatever the generator yields, every call of
    [update] returns: [autoDodge] never indexes its danger flags out of
    range.  Along the way [targetLane], [runnerLane] and the lane of
    every obstacle and coin stay in [0, numLanes), the pools keep their 20
    and 30 slots, and the viewport is the one given to [newGame]. *)
Theorem play_never_panics (w h : Z) (r : rng) (dts : list F) :
  ∃ g' r', run dts (newGame w h) r = Ok (g', r') ∧
           well_formed g' ∧ width g' = w ∧ height g' = h.
Proof.
  destruct (run_total dts (newGame w h) r (newGame_lanes_ok w h))
    as (g' & r' & Hrun & _).
  exists g', r'. split; [done|].
  apply (run_invariant (λ _, True)
           (λ g, well_formed g ∧ width g = w ∧ height g = h)
           dts (newGame w h) r g' r'); [|by apply Forall_true| |done].
  - intros dt g0 r0 g1 r1 _ (Hwf & <- & <-) Hup.
    by apply (update_well_formed dt g0 r0 g1 r1).
  - split; [apply newGame_well_formed|done].
Qed.

(** ** The lane transition and the spawn timers, field by field *)







End MoreGeneric.

(** * More numeric laws, over exact rationals *)

Module MoreExactLaws.
Import Exact.
Import Invariants.
Import MoreInvariants.
Import ExactLaws.
Local Open Scope fl_scope.
Local Open Scope Q_scope.

(** ** The clock and the speed in closed form *)




(** ** The spawn timers *)





(** ** The lane transition *)


(** ** Rendering in play *)




(** ** More scenarios, on exact rationals *)




End MoreExactLaws.

(** * More scenarios, on IEEE 754 binary64 *)

Module MoreOnFloats.
Import IEEE.
Local Open Scope fl_scope.

(** X1, witness: ["abcd"] placed at column 3 of a buffer of 5. *)
Lemma placeStringBytes_clips_witness :
  ∃ b', placeStringBytes (replicate 5 " "%char) 3 (list_ascii_of_string "abcd")
        = Ok b' ∧
        length b' = 5%nat ∧
        ∀ i : nat, (i < 5)%nat →
          b' !! i = if bool_decide (3 ≤ Z.of_nat i < 3 + 4)
                    then list_ascii_of_string "abcd" !! Z.to_nat (Z.of_nat i - 3)
                    else replicate 5 " "%char !! i.
Proof.
  apply (placeStringBytes_clips (replicate 5 " "%char)
           (list_ascii_of_string "abcd") 3);
    vm_compute; discriminate.
Defined.

(** X2, witness: a frame of the 80 x 24 viewport. *)
Lemma render_frame_layout_witness :
  ∃ g' out rows,
    render blocked = Ok (g', out) ∧ length rows = 24%nat ∧
    out = cursorHome ++ joinRows rows ∧ length out = 1969%nat.
Proof.
  pose proof (render_guarded (λ _, False) blocked) as Hg.
  destruct (render blocked) as [[g' out]|f] eqn:Hrun.
  - destruct (render_frame_layout blocked g' out) as (rows & Hn & _ & Ho & Hl);
      [vm_compute; split; discriminate|vm_compute; discriminate|exact Hrun|].
    exists g', out, rows.
    split; [reflexivity|]. split; [exact Hn|]. split; [exact Ho|].
    apply Nat2Z.inj. rewrite Hl; [reflexivity|vm_compute; discriminate].
  - exfalso. apply Hg; [|right]; vm_compute; [split|]; discriminate.
Defined.

(** X3, witness: the same frame, rendered twice. *)
Lemma render_is_repeatable_witness :
  ∃ g' out, render blocked = Ok (g', out) ∧ render g' = Ok (g', out).
Proof.
  pose proof (render_guarded (λ _, False) blocked) as Hg.
  destruct (render blocked) as [[g' out]|f] eqn:Hrun.
  - exists g', out. split; [reflexivity|].
    exact (proj2 (render_is_repeatable blocked) g' out Hrun).
  - exfalso. apply Hg; [|right]; vm_compute; [split|]; discriminate.
Defined.

(** X4, witness: viewports of 80 x 0, -1 x 24 and 0 x 24. *)
Lemma render_on_degenerate_viewports_witness :
  render (newGame 80 0) = Ok (set_frame cursorHome (newGame 80 0), cursorHome) ∧
  render (newGame (-1) 24) = Panic BadLen ∧
  render (newGame 0 24) = Panic DivByZero.
Proof.
  split_and!.
  - apply (render_on_degenerate_viewports (newGame 80 0)).
    vm_compute. discriminate.
  - apply (render_on_degenerate_viewports (newGame (-1) 24));
      vm_compute; [reflexivity|discriminate].
  - apply (render_on_degenerate_viewports (newGame 0 24));
      vm_compute; [reflexivity|split; discriminate].
Defined.

(** X5, witness: the score line of a fresh game, 80 columns wide. *)
Lemma hud_is_drawn_over_the_scene_witness :
  ∃ line,
    renderRow (newGame 80 24) 0 8 27 = Ok line ∧
    ∀ (k : nat) c,
      list_ascii_of_string " SCORE: 0000000 " !! k = Some c →
      line !! (63 + k)%nat = Some c.
Proof.
  destruct (renderRow (newGame 80 24) 0 8 27) as [line|f] eqn:Hrun;
    [|vm_compute in Hrun; discriminate].
  exists line. split; [reflexivity|].
  apply (proj1 (hud_is_drawn_over_the_scene (newGame 80 24) 8 27 line
                  ltac:(vm_compute; split; discriminate)));
    [vm_compute; discriminate|exact Hrun].
Defined.

(** X6, witness: row 7 of the 80 x 24 viewport, whose horizon is row 8. *)
Lemma horizon_row_is_a_solid_line_witness :
  renderRow (newGame 80 24) 7 8 27 = Ok (replicate 80 "_"%char).
Proof.
  apply (horizon_row_is_a_solid_line (newGame 80 24) 7 27);
    vm_compute; split; (reflexivity || discriminate).
Defined.

(** X7, witness: an obstacle one unit ahead of the runner reaches the rows
    of the legs; the head, two rows above, is at row 19, column 40. *)
Lemma runner_is_drawn_over_the_scene_witness :
  ∃ line,
    renderRow collision 19 8 27 = Ok line ∧ line !! 40%nat = Some "O"%char.
Proof.
  destruct (renderRow collision 19 8 27) as [line|f] eqn:Hrun;
    [|vm_compute in Hrun; discriminate].
  exists line. split; [reflexivity|].
  apply (proj1 (runner_is_drawn_over_the_scene collision 19 8 27 line
                  ltac:(vm_compute; split; (reflexivity || discriminate))
                  ltac:(vm_compute; discriminate)
                  ltac:(vm_compute; discriminate)
                  ltac:(vm_compute; reflexivity) Hrun));
    vm_compute; [reflexivity|split; (reflexivity || discriminate)].
Defined.

(** X8, witness: lanes 0 and 2 are both free of obstacles; the coin in
    lane 2 decides. *)
Lemma autoDodge_prefers_coin_lanes_witness :
  ∃ g', autoDodge aheadWithCoin = Ok g' ∧ targetLane g' = 2.
Proof.
  destruct (autoDodge aheadWithCoin) as [g'|f] eqn:Hrun;
    [|vm_compute in Hrun; discriminate].
  exists g'. split; [reflexivity|].
  rewrite (autoDodge_prefers_coin_lanes aheadWithCoin g' Hrun).
  vm_compute. reflexivity.
Defined.

(** X9, witness: slot 0 is taken, slot 1 is the first free one. *)
Lemma spawnObstacle_claims_first_free_slot_witness :
  spawnObstacle oneObstacle r0
  = (set_obstacles
       ([Obstacle 1 (of_int 10) true]
        ++ Obstacle (Intn numLanes r0).1 (of_int spawnZ) true
        :: replicate 18 (Obstacle 0 fzero false)) oneObstacle,
     adv r0) ∧
  0 ≤ (Intn numLanes r0).1 < numLanes.
Proof.
  apply (spawnObstacle_claims_first_free_slot oneObstacle r0
           [Obstacle 1 (of_int 10) true]
           (replicate 18 (Obstacle 0 fzero false))
           (Obstacle 0 fzero false)).
  - reflexivity.
  - repeat constructor.
  - reflexivity.
Defined.

(** X10, witness: an empty coin pool. *)
Lemma spawnCoin_lays_a_trail_witness :
  spawnCoin (newGame 80 24) r0
  = (set_coinPool
       ([] ++ CoinObj 0 (of_int spawnZ ⊕ of_int 0 ⊗ dec 15 10) true
        :: [] ++ CoinObj 0 (of_int spawnZ ⊕ of_int 1 ⊗ dec 15 10) true
        :: [] ++ CoinObj 0 (of_int spawnZ ⊕ of_int 2 ⊗ dec 15 10) true
        :: replicate 27 (CoinObj 0 fzero false)) (newGame 80 24),
     adv r0).
Proof.
  apply (proj1 (spawnCoin_lays_a_trail (newGame 80 24) r0)
           [] (CoinObj 0 fzero false) [] (CoinObj 0 fzero false)
           [] (CoinObj 0 fzero false) (replicate 27 (CoinObj 0 fzero false)));
    (reflexivity || constructor).
Defined.

(** X11, witness: the obstacle of the one-obstacle scenario. *)
Lemma update_moves_the_obstacles_witness :
  ∃ g' r',
    update (of_int 1) oneObstacle r0 = Ok (g', r') ∧
    obstacles g' !! 0%nat
    = Some (Obstacle 1
              (of_int 10 ⊖ rampSpeed (fzero ⊕ of_int 1) ⊗ of_int 1) true).
Proof.
  destruct (update (of_int 1) oneObstacle r0) as [[g' r']|f] eqn:Hrun;
    [|vm_compute in Hrun; discriminate].
  exists g', r'. split; [reflexivity|].
  apply (proj1 (update_moves_the_obstacles (of_int 1) oneObstacle r0 g' r'
                  0 (Obstacle 1 (of_int 10) true) Hrun eq_refl));
    vm_compute; reflexivity.
Defined.

(** X17, witness: row 3 of the 80 x 24 viewport has its stars at columns
    62 and 20. *)
Lemma sky_rows_show_their_stars_witness :
  renderRow (newGame 80 24) 3 8 27
  = Ok (<[20%nat := "."%char]>
          (<[62%nat := "."%char]> (replicate 80 " "%char))).
Proof.
  rewrite (sky_rows_show_their_stars (newGame 80 24) 3 8 27);
    [reflexivity|vm_compute; split; discriminate|vm_compute; discriminate
    |vm_compute; split; (reflexivity || discriminate)|vm_compute; discriminate].
Defined.

End MoreOnFloats.
